(** * bfg9000: the ninja build-file model and its shell helpers

    A shallow embedding of [bfg9000/iterutils.py], [bfg9000/shell/posix.py]
    and [bfg9000/backends/ninja/syntax.py], with the properties the
    specification states about them.

    Conventions.
    - A Python string is a [string] of 8-bit characters: a byte string
      in Python 2, a string of code points below 256 in Python 3.  Both
      interpreters run the program; what they decide differently, the
      regular expression class [\w] beyond ASCII, is the class [Python].
    - A Python exception is a value of [exn]; a call that may raise returns
      a [result].  A method that mutates its object is a function from the
      state before the call to the outcome and the state after it, so that
      what a raising call leaves behind is part of the model. *)

From Stdlib Require Import Ascii String List Bool Arith Lia.
From stdpp Require Import base decidable countable gmap strings pretty.

Import ListNotations.
Local Open Scope string_scope.
Local Open Scope list_scope.

(* stdpp blocks the unfolding of string append; the proofs here compute
   with it. *)
#[local] Arguments String.append !_ _ / : simpl nomatch.

(* ===================================================================== *)
(** * Characters and strings as Python uses them *)
(* ===================================================================== *)

Module Py.

Definition ord (c : ascii) : nat := nat_of_ascii c.

Definition between (lo hi c : ascii) : bool :=
  (ord lo <=? ord c)%nat && (ord c <=? ord hi)%nat.

(** [c in s] for a one-character [c]. *)
Fixpoint contains (c : ascii) (s : string) : bool :=
  match s with
  | EmptyString => false
  | String d s' => Ascii.eqb c d || contains c s'
  end.

(** The characters of ASCII. *)
Definition is_ascii (c : ascii) : bool := (ord c <? 128)%nat.

(** What the interpreter decides: the characters beyond ASCII that the
    class [\w] of the [re] module matches.  The patterns of the sources
    are written without a flag.  In Python 2 such a pattern matches in
    ASCII only; in Python 3 a pattern that is a [str] matches by
    Unicode. *)
Class Python : Type := {
  unicode_word : ascii -> bool
}.

(** Python 2: no character beyond ASCII is of [\w]. *)
Definition python2 : Python := {| unicode_word := fun _ => false |}.

(** Python 3, on the code points from 128 to 255: [\w] has the letters
    and what Unicode counts as a number, that is the ordinal indicators
    170 and 186, the micro sign 181, the superscripts 178, 179 and 185,
    the fractions 188 to 190, and the letters from 192 to 255 without
    the signs of multiplication 215 and division 247. *)
Definition python3 : Python := {|
  unicode_word := fun c =>
    existsb (Nat.eqb (ord c)) [170; 178; 179; 181; 185; 186; 188; 189; 190]
    || between "192" "214" c || between "216" "246" c
    || between "248" "255" c
|}.

(** The class [\w] of the [re] module: a letter, a digit or the
    underscore in ASCII, and beyond ASCII what the interpreter has. *)
Definition word_char `{Python} (c : ascii) : bool :=
  if is_ascii c
  then between "a" "z" c || between "A" "Z" c || between "0" "9" c
       || Ascii.eqb c "_"
  else unicode_word c.

(** [re.search] of a pattern that is one character class. *)
Fixpoint re_search (cls : ascii -> bool) (s : string) : bool :=
  match s with
  | EmptyString => false
  | String c s' => cls c || re_search cls s'
  end.

(** [re.sub] of a pattern that is one character class; [repl] gives the
    replacement of the matched character. *)
Fixpoint re_sub (cls : ascii -> bool) (repl : ascii -> string) (s : string)
  : string :=
  match s with
  | EmptyString => EmptyString
  | String c s' =>
      (if cls c then repl c else String c EmptyString) +:+ re_sub cls repl s'
  end.

(** [s.replace(old, new)] for a one-character [old]. *)
Fixpoint replace (old : ascii) (new : string) (s : string) : string :=
  match s with
  | EmptyString => EmptyString
  | String c s' =>
      (if Ascii.eqb c old then new else String c EmptyString)
        +:+ replace old new s'
  end.

(** [sep.join(parts)]. *)
Fixpoint join (sep : string) (parts : list string) : string :=
  match parts with
  | [] => EmptyString
  | [p] => p
  | p :: ps => p +:+ sep +:+ join sep ps
  end.

(** Truth value of a string: [not s] is [is_empty s]. *)
Definition is_empty (s : string) : bool :=
  match s with EmptyString => true | _ => false end.

Definition dquote : ascii := "034".
Definition squote : ascii := "'".
Definition newline : ascii := "010".

End Py.

(* ===================================================================== *)
(** * Exceptions *)
(* ===================================================================== *)

(** One constructor per [raise] of the modelled code. *)
Inductive exn : Type :=
| IllegalNewline                 (* ValueError('illegal newline') *)
| BadType                        (* TypeError(type(thing)) *)
| NoCommand                      (* ValueError('expected at least one command') *)
| VariableExists (name : string) (* ValueError("variable ... already exists") *)
| UnknownPool (pool : string)    (* ValueError("unknown pool '...'") *)
| BadRuleName                    (* ValueError('rule name contains invalid characters') *)
| RuleExists (name : string)     (* ValueError("rule '...' already exists") *)
| UnknownRule (name : string)    (* ValueError("unknown rule '...'") *)
| BuildExists                    (* ValueError("build for '...' already exists") *)
| NotImplemented_                (* NotImplementedError() *)
| NoClosingQuotation.            (* shlex: ValueError("No closing quotation") *)

Inductive result (A : Type) : Type :=
| Ok (a : A)
| Raise (e : exn).
Arguments Ok {A} a.
Arguments Raise {A} e.

Definition result_map {A B} (f : A -> B) (r : result A) : result B :=
  match r with Ok a => Ok (f a) | Raise e => Raise e end.

(* ===================================================================== *)
(** * State and exceptions *)
(* ===================================================================== *)

(** A computation over a mutable object of type [S]: the outcome and the
    object afterwards.  The object is returned on both outcomes; a raise
    keeps what was written before it. *)
Definition M (S A : Type) : Type := S -> result A * S.

#[export] Instance M_ret {S} : MRet (M S) := fun A a s => (Ok a, s).

Definition bind {S A B} (m : M S A) (k : A -> M S B) : M S B := fun s =>
  match m s with
  | (Ok a, s') => k a s'
  | (Raise e, s') => (Raise e, s')
  end.

#[export] Instance M_bind {S} : MBind (M S) := fun A B k m => bind m k.

(** [let* x := m in k] runs [m] and names its value; [m;; k] runs [m] for
    its effect. *)
Notation "'let*' x ':=' m 'in' k" := (bind m (fun x => k))
  (at level 10, x name, m at level 100, k at level 200, only parsing).

Definition raise {S A} (e : exn) : M S A := fun s => (Raise e, s).
Definition lift {S A} (r : result A) : M S A := fun s => (r, s).
Definition gets {S A} (f : S -> A) : M S A := fun s => (Ok (f s), s).
Definition modify {S} (f : S -> S) : M S unit := fun s => (Ok tt, f s).
Definition when {S} (b : bool) (m : M S unit) : M S unit :=
  if b then m else mret tt.

(** [for x in l: body(x)] *)
Fixpoint for_each {S A} (l : list A) (body : A -> M S unit) : M S unit :=
  match l with
  | [] => mret tt
  | x :: l' => body x;; for_each l' body
  end.

(* ===================================================================== *)
(** * iterutils.py *)
(* ===================================================================== *)

Module Iterutils.

(** An argument that the callers pass as [None], as one object, or as a
    list of objects. *)
Inductive arg (A : Type) : Type :=
| None_
| One (x : A)
| Many (l : list A).
Arguments None_ {A}.
Arguments One {A} x.
Arguments Many {A} l.

(** [listify(thing)] with its default flags: a list is returned as it is,
    [None] gives the empty list and any other object a one-element list. *)
Definition listify {A} (thing : arg A) : list A :=
  match thing with
  | Many l => l
  | None_ => []
  | One x => [x]
  end.

(** The generator [tween], run to its end.  [first] is the flag of the
    source. *)
Fixpoint tween_from {A} (first : bool) (iterable : list A) (delim : A)
    (prefix suffix : option A) : list A :=
  match iterable with
  | i :: rest =>
      (if first
       then match prefix with Some p => [p] | None => [] end
       else [delim])
        ++ i :: tween_from false rest delim prefix suffix
  | [] =>
      if negb first
      then match suffix with Some s => [s] | None => [] end
      else []
  end.

Definition tween {A} (iterable : list A) (delim : A)
    (prefix suffix : option A) : list A :=
  tween_from true iterable delim prefix suffix.

(** What [first] gives: a value, or the [LookupError] it raises. *)
Inductive lookup (A : Type) : Type :=
| Found (x : A)
| LookupError.
Arguments Found {A} x.
Arguments LookupError {A}.

(** The generator that [iterate(thing)] returns, run to its end. *)
Definition iterate {A} (thing : arg A) : list A :=
  match thing with
  | None_ => []
  | Many l => l
  | One x => [x]
  end.

(** [first(thing, default)]: the first object of [iterate(thing)];
    [default] is [None] when the caller gives none (the sentinel). *)
Definition first {A} (thing : arg A) (default : option A) : lookup A :=
  match iterate thing with
  | x :: _ => Found x
  | [] =>
      match default with
      | Some d => Found d
      | None => LookupError
      end
  end.

(** [unlistify(thing)], for a list of objects that are neither [None]
    nor iterable: only of such an object is [One] the right reading. *)
Definition unlistify {A} (thing : list A) : arg A :=
  match thing with
  | [] => None_
  | [x] => One x
  | _ => Many thing
  end.

(** [reverse_enumerate(iterable)], run to its end. *)
Definition reverse_enumerate {A} (iterable : list A) : list (nat * A) :=
  combine (rev (seq 0 (length iterable))) (rev iterable).

(** The generator of [uniques]; [seen] is its set. *)
Fixpoint generate_uniques `{Countable A} (seen : gset A) (iterable : list A)
    : list A :=
  match iterable with
  | [] => []
  | item :: rest =>
      if decide (item ∈ seen) then generate_uniques seen rest
      else item :: generate_uniques ({[item]} ∪ seen) rest
  end.

Definition uniques `{Countable A} (iterable : list A) : list A :=
  generate_uniques ∅ iterable.

End Iterutils.

(* ===================================================================== *)
(** * The objects that are written: variables and string fragments *)
(* ===================================================================== *)

(** [class Variable]: the name is what [__eq__] and [__hash__] look at. *)
Module Variable_.
Record t : Type := mk { name : string }.

(** [__init__]: [re.sub('\W', '_', name)] *)
Definition init `{Py.Python} (n : string) : t :=
  mk (Py.re_sub (fun c => negb (Py.word_char c)) (fun _ => "_") n).

(** [use]: the text of the literal [${name}]. *)
Definition use (v : t) : string := "${" +:+ name v +:+ "}".
End Variable_.

#[export] Instance Variable_eq_dec : EqDecision Variable_.t.
Proof. solve_decision. Defined.
#[export] Instance Variable_countable : Countable Variable_.t :=
  inj_countable' Variable_.name Variable_.mk
    (fun v => match v with Variable_.mk _ => eq_refl end).

(** What [var] is applied to: a name or a [Variable]. *)
Inductive var_arg : Type :=
| ByName (n : string)
| ByVariable (v : Variable_.t).

Definition var `{Py.Python} (v : var_arg) : Variable_.t :=
  match v with
  | ByVariable v => v
  | ByName n => Variable_.init n
  end.

(** Modelled from the spec: the classes [literal], [shell_literal] and
    [jbos] of [safe_str] and the class [Path], which are not among the
    sources at hand.  These are the objects that [Writer.write] tells
    apart, over the paths [P]; the constructors follow the string fragments
    of the specification.  [VarRef] is a [Variable], which [safe_str] turns
    into the literal of its [use]; [Tool] is an external-tool object with
    its [command_var] and [command]; [Other] is any object of another
    type. *)
#[warnings="-register-all"]
Inductive Thing (P : Type) : Type :=
| Literal (s : string)
| ShellLiteral (s : string)
| Str (s : string)
| Jbos (bits : list (Thing P))
| PathObj (p : P)
| VarRef (v : Variable_.t)
| Tool (command_var : string) (command : list string)
| Other.
Arguments Literal {P} s.
Arguments ShellLiteral {P} s.
Arguments Str {P} s.
Arguments Jbos {P} bits.
Arguments PathObj {P} p.
Arguments VarRef {P} v.
Arguments Tool {P} command_var command.
Arguments Other {P}.

(** A command line, or the value of a variable, as [iterutils.isiterable]
    and [isinstance(_, shell.shell_list)] tell them apart: a list of
    arguments, a [shell_list] (a kind of list, declared outside the sources
    at hand), or one object that is not iterable. *)
Inductive Line (P : Type) : Type :=
| Args (args : list (Thing P))
| ShellList (args : list (Thing P))
| Scalar (thing : Thing P).
Arguments Args {P} args.
Arguments ShellList {P} args.
Arguments Scalar {P} thing.

(* ===================================================================== *)
(** * shell/posix.py *)
(* ===================================================================== *)

Module Posix.

(** The safe set as the specification spells it:
    [[A-Za-z0-9_@%+:,./-]]. *)
Definition safe_char_spec (c : ascii) : bool :=
  Py.between "A" "Z" c || Py.between "a" "z" c || Py.between "0" "9" c
  || Py.contains c "_@%+:,./-".

Section WithPython.
Context {py : Py.Python}.

(** [_bad_chars = re.compile(r'[^\w@%+:,./-]')] *)
Definition bad_char (c : ascii) : bool :=
  negb (Py.word_char c || Py.contains c "@%+:,./-").

(** The replacement text of [escape]: a single quote, a double quote, a
    single quote, a double quote, a single quote. *)
Definition squote_idiom : string :=
  String Py.squote (String Py.dquote (String Py.squote
    (String Py.dquote (String Py.squote EmptyString)))).

Definition escape (s : string) : string * bool :=
  if Py.is_empty s then (EmptyString, false)
  else if negb (Py.re_search bad_char s) then (s, false)
  else (Py.replace Py.squote squote_idiom s, true).

Definition quote_escaped (s : string) (escaped : bool) : string :=
  if escaped then "'" +:+ s +:+ "'" else s.

Definition quote (s : string) : string :=
  let '(s', esc) := escape s in quote_escaped s' esc.

Definition quote_info (s : string) : string * bool :=
  let '(s', esc) := escape s in (quote_escaped s' esc, esc).

Definition join (args : list string) : string :=
  Py.join " " (map quote args).

End WithPython.

(** ** The tokenizer behind [split]

    [split] runs the standard library's [shlex] in POSIX mode with
    [commenters = ''], [escape = ''] and [whitespace_split = True].
    [shlex] is not part of the repository; [tokens] follows the state
    machine of its [read_token] under these settings, iterated as
    [list(lexer)] does.  The lexer state [' '] is [InSpace], ['a'] is
    [InWord], and a quote character is [InQuote]; the state [None] only
    follows the end of the input, where the iteration ends. *)

Inductive lex_state : Type :=
| InSpace
| InWord
| InQuote (q : ascii).

(** [whitespace] is space, tab, carriage return and line feed; [quotes]
    is the single and the double quote. *)
Definition whitespace (c : ascii) : bool :=
  Py.contains c
    (String " " (String "009" (String "013" (String "010" EmptyString)))).
Definition quotes (c : ascii) : bool :=
  Py.contains c (String Py.squote (String Py.dquote EmptyString)).

(** What [read_token] returns when it leaves its loop: the token, or
    [None] for an empty token that was never quoted. *)
Definition token_result (quoted : bool) (token : string) : option string :=
  if negb quoted && Py.is_empty token then None else Some token.

(** A returned token is yielded and the lexer goes on; [None] is the end
    of the iteration. *)
Definition yield (quoted : bool) (token : string)
    (more : result (list string)) : result (list string) :=
  match token_result quoted token with
  | Some t => result_map (cons t) more
  | None => Ok []
  end.

Fixpoint tokens (state : lex_state) (quoted : bool) (token : string)
    (input : string) : result (list string) :=
  match input with
  | EmptyString =>
      match state with
      | InSpace | InWord => yield quoted token (Ok [])
      | InQuote _ => Raise NoClosingQuotation
      end
  | String nextchar rest =>
      match state with
      | InSpace =>
          if whitespace nextchar then
            if negb (Py.is_empty token) || quoted
            then yield quoted token (tokens InSpace false EmptyString rest)
            else tokens InSpace quoted token rest
          else if quotes nextchar then
            tokens (InQuote nextchar) quoted token rest
          else
            tokens InWord quoted (String nextchar EmptyString) rest
      | InQuote q =>
          if Ascii.eqb nextchar q then tokens InWord true token rest
          else tokens (InQuote q) true (token +:+ String nextchar EmptyString) rest
      | InWord =>
          if whitespace nextchar then
            if negb (Py.is_empty token) || quoted
            then yield quoted token (tokens InSpace false EmptyString rest)
            else tokens InSpace quoted token rest
          else if quotes nextchar then
            tokens (InQuote nextchar) quoted token rest
          else
            tokens InWord quoted (token +:+ String nextchar EmptyString) rest
      end
  end.

Definition split (s : string) : result (list string) :=
  tokens InSpace false EmptyString s.

Definition join_commands {P} (commands : list (Line P)) : list (Line P) :=
  Iterutils.tween commands (Scalar (ShellLiteral " && ")) None None.

(** An environment is a dictionary; its items are kept in the order of
    insertion. *)
Definition local_env {P} (env : list (string * Thing P)) : list (Thing P) :=
  map (fun '(name, value) => Jbos [Str name; ShellLiteral "="; value]) env.

Definition global_env {P} (env : list (string * Thing P)) : list (Line P) :=
  map (fun '(name, value) =>
         Args [Str "export"; Jbos [Str name; ShellLiteral "="; value]]) env.

End Posix.


(* ===================================================================== *)
(** * backends/ninja/syntax.py *)
(* ===================================================================== *)

Inductive Syntax : Type := output | input | shell | clean.
Inductive Section_ : Type :=
  Section_path | Section_command | Section_flags | Section_other.

#[export] Instance Syntax_eq_dec : EqDecision Syntax.
Proof. solve_decision. Defined.
#[export] Instance Section_eq_dec : EqDecision Section_.
Proof. solve_decision. Defined.

(** What the repository and the platform provide around [syntax.py]:
    the paths with the result of [Path.realize(path_vars, shelly)], which
    holds no further path; the versions of [versioning] with their
    constructor, their order and [str]; and whether [platform_name()] is
    ['windows'].  [Path_format] is what ['{}'.format(path)] gives: the
    text, or the exception that is raised on the way, by the [__str__]
    of the class of the paths. *)
Class Externals : Type := {
  Path : Type;
  Path_eq_dec :: EqDecision Path;
  Path_countable :: Countable Path;
  realize : Path -> bool -> Thing Empty_set;
  Path_format : Path -> result string;
  VersionT : Type;
  Version : string -> VersionT;
  version_gt : VersionT -> VersionT -> bool;
  version_str : VersionT -> string;
  platform_windows : bool
}.

Module Writer.

Definition escape_str (str : string) (syntax : Syntax) : result string :=
  if Py.contains Py.newline str then Raise IllegalNewline
  else match syntax with
       | output =>
           Ok (Py.re_sub (fun c => Py.contains c ":$ ")
                 (fun c => String "$" (String c "")) str)
       | input =>
           Ok (Py.re_sub (fun c => Py.contains c "$ ")
                 (fun c => String "$" (String c "")) str)
       | shell | clean => Ok (Py.replace "$" "$$" str)
       end.

(** The writer's object is its stream. *)
Definition write_literal (str : string) : M string unit :=
  modify (fun stream => stream +:+ str).

(** [shell_quote] is [shell.quote_info], [shell.escape] or [None]. *)
Definition quoter : Type := option (string -> string * bool).

(** [write], with the branch for a path left to [on_path]. *)
Fixpoint write_with {P} (on_path : P -> Syntax -> M string bool)
    (thing : Thing P) (syntax : Syntax) (shell_quote : quoter)
    : M string bool :=
  let shelly := bool_decide (syntax = shell) in
  match thing with
  | VarRef v => write_literal (Variable_.use v);; mret true
  | Literal s => write_literal s;; mret true
  | ShellLiteral s =>
      let* e := lift (escape_str s syntax) in
      write_literal e;; mret true
  | Str s =>
      let '(s', escaped) :=
        match shell_quote with
        | Some quote => if shelly then quote s else (s, false)
        | None => (s, false)
        end in
      let* e := lift (escape_str s' syntax) in
      write_literal e;; mret escaped
  | Jbos bits =>
      (fix each (bits : list (Thing P)) (escaped : bool) : M string bool :=
         match bits with
         | [] => mret escaped
         | i :: bits' =>
             let* e := write_with on_path i syntax shell_quote in
             each bits' (escaped || e)
         end) bits false
  | PathObj p => on_path p syntax
  | Tool _ _ | Other => raise BadType
  end.

(** A realized path holds no path. *)
Definition write_realized
    : Thing Empty_set -> Syntax -> quoter -> M string bool :=
  write_with (fun (p : Empty_set) _ => match p with end).

Section WithExternals.
Context {py : Py.Python} `{Ext : Externals}.

(** The branch of [write] for a [Path]: the realized path is written
    to a writer of its own with [shell.escape], and its text is copied
    into the stream, in quotes if a shell will read it and a part of it
    was escaped. *)
Definition write_path (p : Path) (syntax : Syntax) : M string bool :=
  let shelly := bool_decide (syntax = shell) in
  match write_realized (realize p shelly) syntax (Some Posix.escape) "" with
  | (Ok escaped, text) =>
      write_literal
        (if shelly && escaped then Posix.quote_escaped text true else text);;
      mret escaped
  | (Raise e, _) => raise e
  end.

Definition write (thing : Thing Path) (syntax : Syntax)
    (shell_quote : quoter) : M string bool :=
  write_with write_path thing syntax shell_quote.

(** [write_each], with the default [delim = literal(' ')] made
    explicit by the callers. *)
Definition write_each (things : list (Thing Path)) (syntax : Syntax)
    (delim : Thing Path) (prefix suffix : option (Thing Path))
    : M string unit :=
  for_each (Iterutils.tween things delim prefix suffix)
    (fun i => write i syntax (Some Posix.quote_info);; mret tt).

Definition write_shell (thing : Line Path) (syntax : Syntax)
    : M string unit :=
  match thing with
  | Args things | ShellList things =>
      write_each things syntax (Literal " ") None None
  | Scalar thing => write thing syntax None;; mret tt
  end.

End WithExternals.

End Writer.

Module Commands.

Record t (P : Type) : Type := mk {
  commands : list (Line P);
  environ : list (string * Thing P)
}.
Arguments mk {P} commands environ.
Arguments commands {P} self : rename.
Arguments environ {P} self : rename.

(** [__init__], for a list of command lines and an environment that is a
    dictionary or [None]. *)
Definition init {P} (commands : list (Line P))
    (environ : option (list (string * Thing P))) : result (t P) :=
  match commands with
  | [] => Raise NoCommand
  | _ => Ok (mk commands (default [] environ))
  end.

Definition is_shell_list {P} (line : Line P) : bool :=
  match line with ShellList _ => true | _ => false end.

(** [iterutils.isiterable] of a command line. *)
Definition isiterable {P} (line : Line P) : bool :=
  match line with Scalar _ => false | _ => true end.

Definition needs_shell {P} (self : t P) : result bool :=
  match commands self with
  | [] => Raise NoCommand
  | first :: _ =>
      Ok ((0 <? length (environ self))%nat
          || (1 <? length (commands self))%nat
          || is_shell_list first
          || negb (isiterable first))
  end.

(** Modelled from the spec: [Command.convert_args] of [tools.common],
    which is not among the sources at hand.  Every external-tool object
    in the argument list is replaced by what the converter gives for it;
    the other arguments stay. *)
Fixpoint Command_convert_args {S P} (args : list (Thing P))
    (conv : string -> list string -> M S Variable_.t) : M S (list (Thing P)) :=
  match args with
  | [] => mret []
  | Tool command_var command :: rest =>
      let* v := conv command_var command in
      let* rest' := Command_convert_args rest conv in
      mret (VarRef v :: rest')
  | a :: rest =>
      let* rest' := Command_convert_args rest conv in
      mret (a :: rest')
  end.

Definition convert {S P} (conv : string -> list string -> M S Variable_.t)
    (args : Line P) : M S (Line P) :=
  match args with
  | Args l => let* l' := Command_convert_args l conv in mret (Args l')
  | ShellList l =>
      let* l' := Command_convert_args l conv in mret (ShellList l')
  | Scalar _ => mret args
  end.

Fixpoint convert_each {S P} (conv : string -> list string -> M S Variable_.t)
    (lines : list (Line P)) : M S (list (Line P)) :=
  match lines with
  | [] => mret []
  | i :: rest =>
      let* i' := convert conv i in
      let* rest' := convert_each conv rest in
      mret (i' :: rest')
  end.

(** [convert_args]: the object with its new [commands]. *)
Definition convert_args {S P} (self : t P)
    (conv : string -> list string -> M S Variable_.t) : M S (t P) :=
  let* commands' := convert_each conv (commands self) in
  mret (mk commands' (environ self)).

Section WithExternals.
Context {py : Py.Python} `{Ext : Externals}.

(** [use]: the text of the literal it returns. *)
Definition use (self : t Path) : result string :=
  let body : M string unit :=
    let* wrap := lift (needs_shell self) in
    when (wrap && platform_windows)
      (Writer.write_literal ("cmd /s /c " +:+ String Py.dquote ""));;
    let env_vars := Posix.global_env (environ self) in
    for_each (Posix.join_commands (env_vars ++ commands self))
      (fun line => Writer.write_shell line shell);;
    let* wrap := lift (needs_shell self) in
    when (wrap && platform_windows)
      (Writer.write_literal (String Py.dquote "")) in
  match body "" with
  | (Ok _, text) => Ok text
  | (Raise e, _) => Raise e
  end.

End WithExternals.

End Commands.

(** The value of a variable and the command of a rule: what
    [Writer.write_shell] is given.  A [Commands] object is not iterable and
    [safe_str] turns it into the literal of its [use]. *)
Inductive Value (P : Type) : Type :=
| Plain (line : Line P)
| Cmds (c : Commands.t P).
Arguments Plain {P} line.
Arguments Cmds {P} c.

Module Rule.
Record t (P : Type) : Type := mk {
  command : Value P;
  depfile : option (Thing P);
  deps : option (Thing P);
  generator : bool;
  pool : option string;
  restat : bool
}.
Arguments mk {P}.
Arguments command {P}.
Arguments depfile {P}.
Arguments deps {P}.
Arguments generator {P}.
Arguments pool {P}.
Arguments restat {P}.
End Rule.

(** The name of an output: a string or a path, compared by value.  A set
    looks at the hashes before it compares; a string and a path are taken
    to have different hashes, so that they are different members. *)
Inductive Target (P : Type) : Type :=
| Named (s : string)
| AtPath (p : P).
Arguments Named {P} s.
Arguments AtPath {P} p.

#[export] Instance Target_eq_dec `{EqDecision P} : EqDecision (Target P).
Proof. solve_decision. Defined.
#[export] Instance Target_countable `{Countable P} : Countable (Target P) :=
  inj_countable'
    (fun t => match t with Named s => inl s | AtPath p => inr p end)
    (fun x => match x with inl s => Named s | inr p => AtPath p end)
    (fun t => match t with Named _ => eq_refl | AtPath _ => eq_refl end).

Definition Target_thing {P} (t : Target P) : Thing P :=
  match t with Named s => Str s | AtPath p => PathObj p end.

Module Build.
Record t (P : Type) : Type := mk {
  outputs : list (Target P);
  rule : string;
  inputs : list (Thing P);
  implicit : list (Thing P);
  order_only : list (Thing P);
  variables : list (Variable_.t * Value P)
}.
Arguments mk {P}.
Arguments outputs {P}.
Arguments rule {P}.
Arguments inputs {P}.
Arguments implicit {P}.
Arguments order_only {P}.
Arguments variables {P}.
End Build.

(** [_comment_tmpl.format(bfgfile)] *)
Definition nl : string := String Py.newline "".

Definition _comment_tmpl (bfgfile : string) : string :=
  "# Do not edit this file! It was automatically generated by bfg9000." +:+ nl
  +:+ "# Instead, you should edit the source file that created this:" +:+ nl
  +:+ "# " +:+ bfgfile.

(** [s * n] *)
Fixpoint str_mul (s : string) (n : nat) : string :=
  match n with
  | O => ""
  | S n' => s +:+ str_mul s n'
  end.

(** [d[k] = v] on a dictionary that keeps the order of insertion. *)
Fixpoint dict_set {K V} `{EqDecision K} (k : K) (v : V) (d : list (K * V))
    : list (K * V) :=
  match d with
  | [] => [(k, v)]
  | (k', v') :: d' =>
      if decide (k = k') then (k, v) :: d' else (k', v') :: dict_set k v d'
  end.

(** [k in d] *)
Definition dict_has {K V} `{EqDecision K} (k : K) (d : list (K * V)) : bool :=
  existsb (fun kv => bool_decide (k = fst kv)) d.

Module NinjaFile.
Section WithExternals.
Context {py : Py.Python} `{Ext : Externals}.

Record t : Type := mk {
  _bfgfile : string;
  _min_version : option VersionT;
  _var_table : gset Variable_.t;
  _variables : Section_ -> list (Variable_.t * Value Path);
  _rules : list (string * Rule.t Path);
  _builds : list (Build.t Path);
  _build_outputs : gset (Target Path);
  _defaults : list (Thing Path)
}.

Definition init (bfgfile : string) : t :=
  {| _bfgfile := bfgfile;
     _min_version := None;
     _var_table := ∅;
     _variables := fun _ => [];
     _rules := [];
     _builds := [];
     _build_outputs := ∅;
     _defaults := [] |}.

(** Assignments to one attribute. *)
Definition set_min_version (v : option VersionT) (self : t) : t :=
  mk (_bfgfile self) v (_var_table self) (_variables self) (_rules self)
    (_builds self) (_build_outputs self) (_defaults self).
Definition set_var_table (x : gset Variable_.t) (self : t) : t :=
  mk (_bfgfile self) (_min_version self) x (_variables self) (_rules self)
    (_builds self) (_build_outputs self) (_defaults self).
Definition set_variables
    (x : Section_ -> list (Variable_.t * Value Path)) (self : t) : t :=
  mk (_bfgfile self) (_min_version self) (_var_table self) x (_rules self)
    (_builds self) (_build_outputs self) (_defaults self).
Definition set_rules (x : list (string * Rule.t Path)) (self : t) : t :=
  mk (_bfgfile self) (_min_version self) (_var_table self)
    (_variables self) x (_builds self) (_build_outputs self)
    (_defaults self).
Definition set_builds (x : list (Build.t Path)) (self : t) : t :=
  mk (_bfgfile self) (_min_version self) (_var_table self)
    (_variables self) (_rules self) x (_build_outputs self)
    (_defaults self).
Definition set_build_outputs (x : gset (Target Path)) (self : t) : t :=
  mk (_bfgfile self) (_min_version self) (_var_table self)
    (_variables self) (_rules self) (_builds self) x (_defaults self).
Definition set_defaults (x : list (Thing Path)) (self : t) : t :=
  mk (_bfgfile self) (_min_version self) (_var_table self)
    (_variables self) (_rules self) (_builds self) (_build_outputs self) x.

Definition min_version (version : string) : M t unit :=
  let version := Version version in
  modify (fun self =>
    match _min_version self with
    | None => set_min_version (Some version) self
    | Some current =>
        if version_gt version current
        then set_min_version (Some version) self
        else self
    end).

Definition has_variable (name : var_arg) (self : t) : bool :=
  bool_decide (var name ∈ _var_table self).

Definition variable (name : var_arg) (value : Value Path)
    (section : Section_) (exist_ok : bool) : M t Variable_.t :=
  let name := var name in
  let* found := gets (has_variable (ByVariable name)) in
  (if found
   then if negb exist_ok
        then raise (VariableExists (Variable_.name name))
        else mret tt
   else modify (fun self =>
          set_variables
            (fun s => if decide (s = section)
                      then _variables self s ++ [(name, value)]
                      else _variables self s)
            (set_var_table ({[name]} ∪ _var_table self) self)));;
  mret name.

(** [cmd_var], for a tool with its [command_var] and [command]. *)
Definition cmd_var (command_var : string) (command : list string)
    : M t Variable_.t :=
  variable (ByName command_var) (Plain (Args (map Str command)))
    Section_command true.

Definition has_rule (name : string) (self : t) : bool :=
  dict_has name (_rules self).

(** What [rule] takes as its command: a [Commands] object, or the list
    of command lines from which [objectify] makes one. *)
Inductive command_arg : Type :=
| AsCommands (c : Commands.t Path)
| AsLines (lines : list (Line Path)).

(** Modelled from the spec: [objectify(command, Commands,
    in_type=object)] of [objutils], which is not among the sources at
    hand: a [Commands] object is taken as it is, anything else is
    given to the constructor of [Commands]. *)
Definition objectify (command : command_arg) : result (Commands.t Path) :=
  match command with
  | AsCommands c => Ok c
  | AsLines lines => Commands.init lines None
  end.

Definition rule (name : string) (command : command_arg)
    (depfile deps : option (Thing Path)) (generator : bool)
    (pool : option string) (restat : bool) : M t unit :=
  let* command := lift (objectify command) in
  let* command := Commands.convert_args command cmd_var in
  let* wrap := lift (Commands.needs_shell command) in
  let* stored :=
    (if negb wrap
     then match Commands.commands command with
          | first :: _ => mret (Plain first)
          | [] => raise NoCommand (* [needs_shell] has raised *)
          end
     else mret (Cmds command)) in
  match pool with
  | Some p =>
      if String.eqb p "console" then min_version "1.5"
      else raise (UnknownPool p)
  | None => mret tt
  end;;
  if Py.re_search (fun c => negb (Py.word_char c)) name
  then raise BadRuleName
  else
    let* found := gets (has_rule name) in
    if found then raise (RuleExists name)
    else modify (fun self =>
           set_rules
             (dict_set name
                (Rule.mk stored depfile deps generator pool restat)
                (_rules self))
             self).

Definition has_build (name : Target Path) (self : t) : bool :=
  bool_decide (name ∈ _build_outputs self).

(** ['{}'.format(i)] for an output: a string is its own text, a path is
    formatted by its [__str__]. *)
Definition format_target (i : Target Path) : result string :=
  match i with
  | Named s => Ok s
  | AtPath p => Path_format p
  end.

(** The body of the loop of [build] over the outputs.  The message of
    the error is made before the error is raised; an output that cannot
    be formatted raises its own exception there. *)
Definition build_output (i : Target Path) : M t unit :=
  let* found := gets (has_build i) in
  if found
  then let* message := lift (format_target i) in raise BuildExists
  else modify (fun self =>
         set_build_outputs ({[i]} ∪ _build_outputs self) self).

Definition build (output : Iterutils.arg (Target Path)) (rule : string)
    (inputs implicit order_only : Iterutils.arg (Thing Path))
    (variables : option (list (var_arg * Value Path))) : M t unit :=
  let* found := gets (has_rule rule) in
  if negb (String.eqb rule "phony") && negb found
  then raise (UnknownRule rule)
  else
    let variables :=
      fold_left (fun d '(k, v) => dict_set (var k) v d)
        (default [] variables) [] in
    let outputs := Iterutils.listify output in
    for_each outputs build_output;;
    modify (fun self =>
      set_builds
        (_builds self ++
           [Build.mk outputs rule (Iterutils.listify inputs)
              (Iterutils.listify implicit) (Iterutils.listify order_only)
              variables])
        self).

Definition default (paths : list (Thing Path)) : M t unit :=
  modify (fun self => set_defaults (_defaults self ++ paths) self).

(** [out.write_shell(value, syntax)] for a value.  A [Commands] object
    is not iterable; [write] takes its [safe_str], the literal of
    [use]. *)
Definition write_shell (value : Value Path) (syntax : Syntax)
    : M string unit :=
  match value with
  | Plain line => Writer.write_shell line syntax
  | Cmds c =>
      let* text := lift (Commands.use c) in
      Writer.write_literal text
  end.

(** The truth value of an optional attribute of a rule: [None] and the
    empty string are false, any other object is true. *)
Definition truthy (x : option (Thing Path)) : bool :=
  match x with
  | None => false
  | Some (Str s) => negb (Py.is_empty s)
  | Some _ => true
  end.

Definition _write_variable (name : Variable_.t) (value : Value Path)
    (syntax : Syntax) (indent : nat) : M string unit :=
  Writer.write_literal
    (str_mul "  " indent +:+ Variable_.name name +:+ " = ");;
  write_shell value syntax;;
  Writer.write_literal nl.

Definition _write_rule (name : string) (rule : Rule.t Path)
    : M string unit :=
  Writer.write_literal ("rule " +:+ name +:+ nl);;
  _write_variable (var (ByName "command")) (Rule.command rule) shell 1;;
  match Rule.depfile rule with
  | Some depfile =>
      when (truthy (Rule.depfile rule))
        (_write_variable (var (ByName "depfile"))
           (Plain (Scalar depfile)) shell 1)
  | None => mret tt
  end;;
  match Rule.deps rule with
  | Some deps =>
      when (truthy (Rule.deps rule))
        (_write_variable (var (ByName "deps"))
           (Plain (Scalar deps)) shell 1)
  | None => mret tt
  end;;
  when (Rule.generator rule)
    (_write_variable (var (ByName "generator"))
       (Plain (Scalar (Str "1"))) shell 1);;
  match Rule.pool rule with
  | Some pool =>
      when (negb (Py.is_empty pool))
        (_write_variable (var (ByName "pool"))
           (Plain (Scalar (Str pool))) shell 1)
  | None => mret tt
  end;;
  when (Rule.restat rule)
    (_write_variable (var (ByName "restat"))
       (Plain (Scalar (Str "1"))) shell 1).

Definition _write_build (build : Build.t Path) : M string unit :=
  Writer.write_literal "build ";;
  Writer.write_each (map Target_thing (Build.outputs build)) output
    (Literal " ") None None;;
  Writer.write_literal (": " +:+ Build.rule build);;
  Writer.write_each (Build.inputs build) input
    (Literal " ") (Some (Literal " ")) None;;
  Writer.write_each (Build.implicit build) input
    (Literal " ") (Some (Literal " | ")) None;;
  Writer.write_each (Build.order_only build) input
    (Literal " ") (Some (Literal " || ")) None;;
  Writer.write_literal nl;;
  for_each (Build.variables build)
    (fun '(k, v) => _write_variable k v shell 1).

(** [write]: [out] is the stream. *)
Definition write (self : t) : M string unit :=
  Writer.write_literal (_comment_tmpl (_bfgfile self) +:+ nl +:+ nl);;
  match _min_version self with
  | Some v =>
      _write_variable (var (ByName "ninja_required_version"))
        (Plain (Scalar (Str (version_str v)))) shell 0;;
      Writer.write_literal nl
  | None => mret tt
  end;;
  for_each [Section_path; Section_command; Section_flags; Section_other]
    (fun section =>
       let syntax :=
         if decide (section = Section_path) then clean else shell in
       for_each (_variables self section)
         (fun '(name, value) => _write_variable name value syntax 0);;
       when (negb (bool_decide (_variables self section = [])))
         (Writer.write_literal nl));;
  for_each (_rules self)
    (fun '(name, rule) => _write_rule name rule;; Writer.write_literal nl);;
  for_each (_builds self)
    (fun build => _write_build build;; Writer.write_literal nl);;
  when (negb (bool_decide (_defaults self = [])))
    (Writer.write_literal "default ";;
     Writer.write_each (_defaults self) input (Literal " ") None None;;
     Writer.write_literal nl).

End WithExternals.
End NinjaFile.

(* ===================================================================== *)
(** * An instance of the surroundings *)
(* ===================================================================== *)

(** Versions as lists of numbers, in lexicographic order; no paths; not on
    Windows.  The generic statements below hold for every instance; this
    one is where they are evaluated. *)
Module Dotted.

Fixpoint gt (a b : list nat) : bool :=
  match a, b with
  | [], _ => false
  | _ :: _, [] => true
  | x :: a', y :: b' =>
      if (y <? x)%nat then true
      else if (x =? y)%nat then gt a' b' else false
  end.

Definition digit (c : ascii) : option nat :=
  if Py.between "0" "9" c then Some (Py.ord c - Py.ord "0")%nat else None.

(** The numbers between the dots; a character that is no digit ends the
    reading. *)
Fixpoint parse_from (current : nat) (s : string) : list nat :=
  match s with
  | EmptyString => [current]
  | String c s' =>
      if Ascii.eqb c "." then current :: parse_from 0 s'
      else match digit c with
           | Some d => parse_from (10 * current + d) s'
           | None => [current]
           end
  end.

Definition parse (s : string) : list nat := parse_from 0 s.

Definition show (v : list nat) : string :=
  Py.join "." (map pretty v).

Definition externals : Externals := {|
  Path := Empty_set;
  realize := fun p _ => match p with end;
  Path_format := fun p => match p with end;
  VersionT := list nat;
  Version := parse;
  version_gt := gt;
  version_str := show;
  platform_windows := false
|}.

(** A command with one line and one variable in its environment. *)
Definition export_and_compile : Commands.t Empty_set :=
  Commands.mk [Args [Str "cc"; Str "main.c"]] [("LANG", Str "C")].


(** A file with the variable [cc = gcc] among the commands. *)
Definition one_variable : @NinjaFile.t externals :=
  snd (NinjaFile.variable (py:=Py.python3) (ByName "cc")
         (Plain (Args [Str "gcc"]))
         Section_command true (NinjaFile.init "build.bfg")).

End Dotted.

(* ===================================================================== *)
(** * The words of the specification *)
(* ===================================================================== *)

(** The safe set of the specification with what the interpreter adds to
    it: beyond ASCII, the characters of [\w]. *)
Definition safe_char_interp {py : Py.Python} (c : ascii) : bool :=
  Posix.safe_char_spec c || negb (Py.is_ascii c) && Py.unicode_word c.

(** The five-character idiom of the specification: a single quote, a
    double quote, a single quote, a double quote, a single quote. *)
Definition idiom_spec : string :=
  string_of_list_ascii ["'"; "034"; "'"; "034"; "'"]%char.

(** The quoted form of the specification, for a string that its single
    quotes cut into [pieces]: the pieces with the idiom in the place of
    every single quote, in single quotes. *)
Definition quoted_spec (pieces : list string) : string :=
  "'" +:+ String.concat idiom_spec pieces +:+ "'".

(** The escaping of the specification: every character of [special] gets
    the sigil [$] in front of it. *)
Definition prefix_sigil_spec (special : list ascii) (s : string) : string :=
  string_of_list_ascii
    (flat_map (fun c => if decide (c ∈ special) then ["$"%char; c] else [c])
       (list_ascii_of_string s)).

Section Greatest.
Context {py : Py.Python} `{Ext : Externals}.

(** [w] is a greatest one among the versions [vs]: it is one of them and
    none of them is greater. *)
Definition greatest (vs : list VersionT) (w : VersionT) : Prop :=
  w ∈ vs /\ forall v, v ∈ vs -> version_gt v w = false.

(** The watermark [m] is right for the versions [seen] so far: none was
    seen and none is stored, or a greatest one is stored. *)
Definition watermark_of (seen : list VersionT) (m : option VersionT)
    : Prop :=
  match m with
  | Some w => greatest seen w
  | None => seen = []
  end.

(** The version a file starts with, as a list. *)
Definition version_before (self : NinjaFile.t) : list VersionT :=
  match NinjaFile._min_version self with Some w => [w] | None => [] end.

End Greatest.

(** The reading of an escaped string that the backend does: the character
    after a sigil is taken as it is.  It is no part of the repository; the
    statement that escaping loses nothing is proved with it. *)
Fixpoint unsigil (s : string) : string :=
  match s with
  | EmptyString => EmptyString
  | String c rest =>
      if Ascii.eqb c "$"
      then match rest with
           | String d rest' => String d (unsigil rest')
           | EmptyString => EmptyString
           end
      else String c (unsigil rest)
  end.

(** The characters that [escape_str] escapes in a syntax. *)
Definition escaped_in (syntax : Syntax) (c : ascii) : bool :=
  match syntax with
  | output => Py.contains c ":$ "
  | input => Py.contains c "$ "
  | shell | clean => Ascii.eqb c "$"
  end.

(** A computation on a stream only appends to it: on any stream it has
    the outcome it has on the empty stream, and leaves the stream with the
    text it writes on the empty stream at its end. *)
Definition appends {A} (m : M string A) : Prop :=
  forall stream, m stream = (fst (m ""), stream +:+ snd (m "")).

(** ** The calls on a build file

    What a front end does with a [NinjaFile]: a call of one of its methods,
    the file being what the call leaves behind, whether it returns or
    raises. *)
Section Calls.
Context {py : Py.Python} `{Ext : Externals}.

Inductive call : Type :=
| CallMinVersion (version : string)
| CallVariable (name : var_arg) (value : Value Path) (section : Section_)
    (exist_ok : bool)
| CallCmdVar (command_var : string) (command : list string)
| CallRule (name : string) (command : NinjaFile.command_arg)
    (depfile deps : option (Thing Path)) (generator : bool)
    (pool : option string) (restat : bool)
| CallBuild (output : Iterutils.arg (Target Path)) (rule : string)
    (inputs implicit order_only : Iterutils.arg (Thing Path))
    (variables : option (list (var_arg * Value Path)))
| CallDefault (paths : list (Thing Path)).

Definition perform (c : call) (self : NinjaFile.t) : NinjaFile.t :=
  match c with
  | CallMinVersion version => snd (NinjaFile.min_version version self)
  | CallVariable name value section exist_ok =>
      snd (NinjaFile.variable name value section exist_ok self)
  | CallCmdVar command_var command =>
      snd (NinjaFile.cmd_var command_var command self)
  | CallRule name command depfile deps generator pool restat =>
      snd (NinjaFile.rule name command depfile deps generator pool restat
             self)
  | CallBuild outs rule inputs implicit order_only variables =>
      snd (NinjaFile.build outs rule inputs implicit order_only variables
             self)
  | CallDefault paths => snd (NinjaFile.default paths self)
  end.

(** What [convert_args] with [cmd_var] makes of an argument and of a
    command line: a tool becomes its variable, everything else stays. *)
Definition converted_thing (a : Thing Path) : Thing Path :=
  match a with
  | Tool command_var _ => VarRef (var (ByName command_var))
  | _ => a
  end.

Definition converted_line (line : Line Path) : Line Path :=
  match line with
  | Args l => Args (map converted_thing l)
  | ShellList l => ShellList (map converted_thing l)
  | Scalar x => Scalar x
  end.

(** What [build] raises for an output that is registered: the
    duplicate-output error when its message can be made, and else the
    exception of the formatting. *)
Definition duplicate_error (i : Target Path) : exn :=
  match NinjaFile.format_target i with
  | Ok _ => BuildExists
  | Raise e => e
  end.

(** The files that calls make from a new file. *)
Inductive reachable : NinjaFile.t -> Prop :=
| reachable_init (bfgfile : string) : reachable (NinjaFile.init bfgfile)
| reachable_call (c : call) (self : NinjaFile.t) :
    reachable self -> reachable (perform c self).

(** The variables of all sections, in the order in which [write] takes
    the sections. *)
Definition all_variables (self : NinjaFile.t)
    : list (Variable_.t * Value Path) :=
  NinjaFile._variables self Section_path
  ++ NinjaFile._variables self Section_command
  ++ NinjaFile._variables self Section_flags
  ++ NinjaFile._variables self Section_other.

(** The table of the variables and the sections agree: every variable is
    in one section, once, and the table holds the variables of the
    sections. *)
Definition variables_agree (self : NinjaFile.t) : Prop :=
  NoDup (map fst (all_variables self))
  /\ forall v, v ∈ NinjaFile._var_table self
               <-> v ∈ map fst (all_variables self).

(** The rules have different names of characters that [\w] matches, and
    no pool but the console. *)
Definition rules_wellformed (self : NinjaFile.t) : Prop :=
  NoDup (map fst (NinjaFile._rules self))
  /\ forall name rule, (name, rule) ∈ NinjaFile._rules self ->
       Py.re_search (fun c => negb (Py.word_char c)) name = false
       /\ (Rule.pool rule = None \/ Rule.pool rule = Some "console").

(** The outputs of all edges, in the order of the edges. *)
Definition edge_outputs (self : NinjaFile.t) : list (Target Path) :=
  concat (map Build.outputs (NinjaFile._builds self)).

(** No output belongs to two edges or twice to one, every output of an
    edge is registered, and every edge has the phony rule or a declared
    one. *)
Definition edges_wellformed (self : NinjaFile.t) : Prop :=
  NoDup (edge_outputs self)
  /\ (forall o, o ∈ edge_outputs self -> NinjaFile.has_build o self = true)
  /\ (forall b, b ∈ NinjaFile._builds self ->
        Build.rule b = "phony"
        \/ NinjaFile.has_rule (Build.rule b) self = true).

(** The files that differ from [self] in their variables and watermark
    at most. *)
Definition same_graph (self s : NinjaFile.t) : Prop :=
  NinjaFile._rules s = NinjaFile._rules self
  /\ NinjaFile._builds s = NinjaFile._builds self
  /\ NinjaFile._build_outputs s = NinjaFile._build_outputs self
  /\ NinjaFile._defaults s = NinjaFile._defaults self.

End Calls.

(* ===================================================================== *)
(** * Properties *)
(* ===================================================================== *)

(** ** Computations *)

Lemma bind_ok {S A B} (m : M S A) (k : A -> M S B) (s s' : S) (a : A) :
  m s = (Ok a, s') -> bind m k s = k a s'.
Proof. unfold bind. now intros ->. Qed.

Lemma bind_raise {S A B} (m : M S A) (k : A -> M S B) (s s' : S) (e : exn) :
  m s = (Raise e, s') -> bind m k s = (Raise e, s').
Proof. unfold bind. now intros ->. Qed.

Lemma for_each_cons_ok {S A} (x : A) (l : list A) (body : A -> M S unit)
    (s s' : S) :
  body x s = (Ok tt, s') -> for_each (x :: l) body s = for_each l body s'.
Proof. intros H. simpl. unfold mbind, M_bind. now rewrite (bind_ok _ _ _ _ _ H). Qed.

Lemma for_each_cons_raise {S A} (x : A) (l : list A) (body : A -> M S unit)
    (s s' : S) (e : exn) :
  body x s = (Raise e, s') -> for_each (x :: l) body s = (Raise e, s').
Proof. intros H. simpl. unfold mbind, M_bind. now rewrite (bind_raise _ _ _ _ _ H). Qed.

(** ** Strings *)

Lemma str_app_nil_r (s : string) : s +:+ "" = s.
Proof. induction s as [|c s IH]; simpl; [reflexivity | now rewrite IH]. Qed.

Lemma str_app_assoc (s t u : string) : (s +:+ t) +:+ u = s +:+ (t +:+ u).
Proof. induction s as [|c s IH]; simpl; [reflexivity | now rewrite IH]. Qed.

Lemma str_app_snoc (t : string) (c : ascii) (s : string) :
  (t +:+ String c "") +:+ s = t +:+ String c s.
Proof. now rewrite str_app_assoc. Qed.

Lemma is_empty_true (s : string) : Py.is_empty s = true <-> s = "".
Proof. destruct s; simpl; split; congruence. Qed.

Lemma contains_re_search (cls : ascii -> bool) (c : ascii) (s : string) :
  cls c = true -> Py.contains c s = true -> Py.re_search cls s = true.
Proof.
  intros Hc. induction s as [|d s IH]; simpl; [congruence|].
  destruct (Ascii.eqb_spec c d) as [->|_]; simpl.
  - now rewrite Hc.
  - intros H. rewrite (IH H). apply orb_true_r.
Qed.

Lemma re_search_exists (cls : ascii -> bool) (s : string) :
  Py.re_search cls s = true <->
  exists c, Py.contains c s = true /\ cls c = true.
Proof.
  split.
  - induction s as [|d s IH]; simpl; [congruence|].
    destruct (cls d) eqn:Hd; simpl.
    + intros _. exists d. now rewrite Ascii.eqb_refl.
    + intros H. destruct (IH H) as (c & Hin & Hc). exists c.
      now rewrite Hin, orb_true_r.
  - intros (c & Hin & Hc). now apply contains_re_search with c.
Qed.

Lemma contains_app (c : ascii) (a b : string) :
  Py.contains c (a +:+ b) = Py.contains c a || Py.contains c b.
Proof.
  induction a as [|d a IH]; simpl; [reflexivity|].
  now rewrite IH, orb_assoc.
Qed.

Lemma contains_replace (c old : ascii) (new s : string) :
  c <> old -> Py.contains c new = false ->
  Py.contains c (Py.replace old new s) = Py.contains c s.
Proof.
  intros Hne Hnew. induction s as [|d s IH]; [reflexivity|].
  simpl. rewrite contains_app, IH.
  destruct (Ascii.eqb_spec d old) as [-> | _].
  - rewrite Hnew. now destruct (Ascii.eqb_spec c old).
  - simpl. now rewrite orb_false_r.
Qed.

Lemma replace_app (old : ascii) (new a b : string) :
  Py.replace old new (a +:+ b) = Py.replace old new a +:+ Py.replace old new b.
Proof.
  induction a as [|d a IH]; simpl; [reflexivity|].
  now rewrite IH, str_app_assoc.
Qed.

(** The character class of the source and the safe set, with what the
    interpreter adds to it, are complements. *)
Lemma bad_char_safe_char {py : Py.Python} (c : ascii) :
  Posix.bad_char c = negb (safe_char_interp c).
Proof.
  destruct c as [[] [] [] [] [] [] [] []]; try reflexivity;
    unfold Posix.bad_char, safe_char_interp, Py.word_char; simpl;
    now rewrite orb_false_r.
Qed.

Lemma safe_char_ascii {py : Py.Python} (c : ascii) :
  Py.is_ascii c = true -> safe_char_interp c = Posix.safe_char_spec c.
Proof.
  intros Hc. unfold safe_char_interp. rewrite Hc. apply orb_false_r.
Qed.

(** ** The tokenizer on quoted words *)

Section Tokens.
Context {py : Py.Python}.
Import Posix.

Lemma bad_char_plain (c : ascii) :
  bad_char c = false -> whitespace c = false /\ quotes c = false.
Proof.
  destruct c as [[] [] [] [] [] [] [] []]; vm_compute; intros H;
    (discriminate H || (split; reflexivity)).
Qed.

(** Inside single quotes the tokenizer reads the escaped text of [s] and
    the closing quote back as [s]. *)
Lemma tokens_quoted_body (s : string) :
  forall (quoted : bool) (token rest : string),
    tokens (InQuote Py.squote) quoted token
      (Py.replace Py.squote squote_idiom s +:+ String Py.squote rest)
    = tokens InWord true (token +:+ s) rest.
Proof.
  induction s as [|c s IH]; intros quoted token rest.
  - simpl. now rewrite str_app_nil_r.
  - simpl Py.replace. destruct (Ascii.eqb_spec c Py.squote) as [->|Hc].
    + rewrite str_app_assoc. simpl. rewrite IH. now rewrite str_app_snoc.
    + rewrite str_app_assoc. simpl.
      destruct (Ascii.eqb_spec c Py.squote) as [E|_]; [contradiction|].
      rewrite IH. now rewrite str_app_snoc.
Qed.

(** A word of safe characters is read as it stands. *)
Lemma tokens_word_plain (s : string) :
  forall (quoted : bool) (token rest : string),
    Py.re_search bad_char s = false ->
    tokens InWord quoted token (s +:+ rest)
    = tokens InWord quoted (token +:+ s) rest.
Proof.
  induction s as [|c s IH]; intros quoted token rest H.
  - simpl. now rewrite str_app_nil_r.
  - simpl in H. apply orb_false_elim in H as [Hc Hs].
    destruct (bad_char_plain c Hc) as [Hw Hq].
    simpl. rewrite Hw, Hq, (IH _ _ _ Hs). now rewrite str_app_snoc.
Qed.

Lemma tokens_space_plain (s rest : string) :
  s <> "" -> Py.re_search bad_char s = false ->
  tokens InSpace false "" (s +:+ rest) = tokens InWord false s rest.
Proof.
  destruct s as [|c s]; [congruence|]. intros _ H.
  simpl in H. apply orb_false_elim in H as [Hc Hs].
  destruct (bad_char_plain c Hc) as [Hw Hq].
  simpl. rewrite Hw, Hq. now rewrite (tokens_word_plain s _ _ _ Hs).
Qed.

Lemma escape_bad (s : string) :
  Py.re_search bad_char s = true ->
  escape s = (Py.replace Py.squote squote_idiom s, true).
Proof.
  intros H. unfold escape. destruct s as [|c s]; [discriminate H|].
  simpl Py.is_empty. cbv iota. now rewrite H.
Qed.

Lemma escape_plain (s : string) :
  Py.re_search bad_char s = false -> escape s = (s, false).
Proof.
  intros H. unfold escape. destruct s as [|c s]; [reflexivity|].
  simpl Py.is_empty. cbv iota. now rewrite H.
Qed.

Lemma quote_bad (s : string) :
  Py.re_search bad_char s = true ->
  quote s
  = String Py.squote (Py.replace Py.squote squote_idiom s +:+ String Py.squote "").
Proof. intros H. unfold quote. now rewrite (escape_bad s H). Qed.

(** After the quoted form of a non-empty [s] the tokenizer is inside a
    word whose text so far is [s]. *)
Lemma tokens_quote_arg (s rest : string) :
  s <> "" ->
  exists quoted,
    tokens InSpace false "" (quote s +:+ rest) = tokens InWord quoted s rest.
Proof.
  intros Hs. destruct (Py.re_search bad_char s) eqn:Hbad.
  - exists true. rewrite (quote_bad s Hbad). simpl.
    rewrite str_app_assoc. simpl. now rewrite tokens_quoted_body.
  - exists false. unfold quote. rewrite (escape_plain s Hbad). simpl.
    now apply tokens_space_plain.
Qed.

Lemma tokens_word_end (quoted : bool) (s : string) :
  s <> "" -> tokens InWord quoted s "" = Ok [s].
Proof.
  destruct s; [congruence|]. intros _. simpl. unfold yield, token_result.
  simpl. now rewrite andb_false_r.
Qed.

Lemma tokens_word_space (quoted : bool) (s rest : string) :
  s <> "" ->
  tokens InWord quoted s (String " " rest)
  = result_map (cons s) (tokens InSpace false "" rest).
Proof.
  destruct s; [congruence|]. intros _. simpl. unfold yield, token_result.
  simpl. now rewrite andb_false_r.
Qed.

Lemma join_cons (a b : string) (l : list string) :
  join (a :: b :: l) = quote a +:+ String " " (join (b :: l)).
Proof. reflexivity. Qed.

End Tokens.

(** ** Shell quoting *)

Lemma concat_cons_cons (sep p q : string) (ps : list string) :
  String.concat sep (p :: q :: ps)
  = p +:+ sep +:+ String.concat sep (q :: ps).
Proof. reflexivity. Qed.

Lemma concat_push (sep : string) (c : ascii) (p : string)
    (ps : list string) :
  String.concat sep (String c p :: ps)
  = String c (String.concat sep (p :: ps)).
Proof. destruct ps; reflexivity. Qed.

(** Every string is cut by its single quotes into pieces without one. *)
Lemma cut_at_quotes (s : string) :
  exists p ps,
    s = String.concat "'" (p :: ps)
    /\ Forall (fun p => Py.contains "'" p = false) (p :: ps).
Proof.
  induction s as [|c s (p & ps & Hs & Hall)].
  - exists "", []. split; [reflexivity | now repeat constructor].
  - destruct (Ascii.eqb_spec c "'") as [-> | Hc].
    + exists "", (p :: ps). split.
      * rewrite concat_cons_cons, <- Hs. reflexivity.
      * now constructor.
    + exists (String c p), ps. split.
      * rewrite concat_push. now rewrite <- Hs.
      * inversion Hall as [|? ? Hp Hps]; subst. constructor; [|exact Hps].
        change (Py.contains "'" (String c p))
          with (Ascii.eqb "'" c || Py.contains "'" p).
        rewrite Hp, orb_false_r. apply Ascii.eqb_neq. congruence.
Qed.

Lemma replace_absent (old : ascii) (new s : string) :
  Py.contains old s = false -> Py.replace old new s = s.
Proof.
  induction s as [|c s IH]; simpl; [reflexivity|].
  intros [Hc Hs]%orb_false_elim. rewrite (IH Hs).
  rewrite Ascii.eqb_sym, Hc. reflexivity.
Qed.

(** Replacing the single quotes of a string puts the replacement between
    its pieces. *)
Lemma replace_concat (new : string) (pieces : list string) :
  Forall (fun p => Py.contains "'" p = false) pieces ->
  Py.replace "'" new (String.concat "'" pieces) = String.concat new pieces.
Proof.
  induction 1 as [|p ps Hp Hps IH]; [reflexivity|].
  destruct ps as [|q ps].
  - simpl. now apply replace_absent.
  - rewrite !concat_cons_cons, !replace_app, IH, (replace_absent _ _ _ Hp).
    simpl. now rewrite str_app_nil_r.
Qed.

(** C5, as the code has it.  Shell quoting reports that [s] requires
    quoting exactly when [s] has a character outside the safe set.  Among
    the characters of ASCII the safe set is [[A-Za-z0-9_@%+:,./-]]; beyond
    ASCII it has what [\w] matches in the interpreter, so that the
    condition of the specification is the right one for the strings of
    ASCII characters.  When quoting is required the result is [s] with
    the five-character idiom in the place of every single quote, wrapped
    in single quotes; otherwise, in particular for the empty string, the
    result is [s] itself, unquoted. *)
Theorem quote_info_spec {py : Py.Python} (s : string) :
  (snd (Posix.quote_info s) = true <->
     s <> "" /\
     exists c, Py.contains c s = true /\ safe_char_interp c = false)
  /\ (forall c, Py.is_ascii c = true ->
                safe_char_interp c = Posix.safe_char_spec c)
  /\ ((forall c, Py.contains c s = true -> Py.is_ascii c = true) ->
      (snd (Posix.quote_info s) = true <->
         s <> "" /\
         exists c, Py.contains c s = true /\ Posix.safe_char_spec c = false))
  /\ (snd (Posix.quote_info s) = true ->
      (exists pieces,
         s = String.concat "'" pieces
         /\ Forall (fun p => Py.contains "'" p = false) pieces)
      /\ forall pieces,
           s = String.concat "'" pieces ->
           Forall (fun p => Py.contains "'" p = false) pieces ->
           fst (Posix.quote_info s) = quoted_spec pieces)
  /\ (snd (Posix.quote_info s) = false -> fst (Posix.quote_info s) = s)
  /\ Posix.quote s = fst (Posix.quote_info s)
  /\ Posix.quote_info "" = ("", false).
Proof.
  assert (Hbad : Py.re_search Posix.bad_char s = true <->
                 exists c, Py.contains c s = true /\
                           safe_char_interp c = false).
  { rewrite re_search_exists. split; intros (c & Hin & Hc); exists c;
      (split; [exact Hin|]); rewrite bad_char_safe_char in *;
      now destruct (safe_char_interp c). }
  assert (Hinfo : Posix.quote_info s
                  = (if Py.re_search Posix.bad_char s
                     then "'" +:+ Py.replace "'" Posix.squote_idiom s +:+ "'"
                     else s,
                     Py.re_search Posix.bad_char s)).
  { unfold Posix.quote_info.
    destruct (Py.re_search Posix.bad_char s) eqn:E.
    - now rewrite (escape_bad s E).
    - now rewrite (escape_plain s E). }
  assert (Hneeds : snd (Posix.quote_info s) = true <->
                   s <> "" /\
                   exists c, Py.contains c s = true /\
                             safe_char_interp c = false).
  { rewrite Hinfo. simpl. rewrite Hbad. split.
    - intros H. split; [|exact H]. apply Hbad in H.
      intros ->. discriminate H.
    - now intros [_ H]. }
  split; [exact Hneeds|]. split; [exact safe_char_ascii|].
  split; [|split; [|split; [|split]]].
  - intros Hascii. rewrite Hneeds. split; intros (Hne & c & Hin & Hc);
      (split; [exact Hne|]); exists c; (split; [exact Hin|]);
      [rewrite <- (safe_char_ascii c (Hascii c Hin)) |
       rewrite (safe_char_ascii c (Hascii c Hin))]; exact Hc.
  - intros Hq. split.
    + destruct (cut_at_quotes s) as (p & ps & Hs & Hall). now exists (p :: ps).
    + intros pieces Hs Hall. rewrite Hinfo in Hq |- *. simpl in Hq.
      rewrite Hq. simpl fst. unfold quoted_spec.
      rewrite Hs, (replace_concat _ _ Hall). reflexivity.
  - intros Hq. rewrite Hinfo in Hq |- *. simpl in Hq. now rewrite Hq.
  - unfold Posix.quote, Posix.quote_info. now destruct (Posix.escape s).
  - reflexivity.
Qed.

(** C6.  A string with a single quote or a space in it is read back from its
    quoted form as one token, the string itself. *)
Theorem split_quote_roundtrip {py : Py.Python} (s : string) :
  Py.contains "'" s = true \/ Py.contains " " s = true ->
  Posix.split (Posix.quote s) = Ok [s].
Proof.
  intros H.
  assert (Hbad : Py.re_search Posix.bad_char s = true).
  { destruct H as [H|H];
      [apply (contains_re_search _ "'" s) | apply (contains_re_search _ " " s)];
      (reflexivity || exact H). }
  assert (Hne : s <> "") by (intros ->; discriminate Hbad).
  unfold Posix.split. rewrite (quote_bad s Hbad). simpl.
  rewrite tokens_quoted_body. simpl. now apply tokens_word_end.
Qed.

(** C10.  Joining a list of non-empty strings with shell quoting and
    splitting the result gives the list back.  An empty string in the list
    is lost: put in front of the list, it leaves no token. *)
Theorem split_join_roundtrip {py : Py.Python} (args : list string) :
  Forall (fun a => a <> "") args ->
  Posix.split (Posix.join args) = Ok args
  /\ Posix.split (Posix.join ("" :: args)) = Ok args.
Proof.
  intros Hargs.
  assert (Hmain : Posix.split (Posix.join args) = Ok args).
  { induction Hargs as [|a l Ha Hl IH]; [reflexivity|].
    destruct l as [|b l].
    - unfold Posix.split, Posix.join. simpl.
      rewrite <- (str_app_nil_r (Posix.quote a)).
      destruct (tokens_quote_arg a "" Ha) as [q ->].
      now apply tokens_word_end.
    - rewrite join_cons. unfold Posix.split in *.
      destruct (tokens_quote_arg a (String " " (Posix.join (b :: l))) Ha)
        as [q ->].
      rewrite (tokens_word_space q a _ Ha), IH. reflexivity. }
  split; [exact Hmain|].
  destruct args as [|b l]; [reflexivity|].
  rewrite join_cons. exact Hmain.
Qed.

(** The statements on quoting, evaluated in Python 3. *)
Section QuotingEvaluated.
#[local] Existing Instance Py.python3.

Lemma split_quote_roundtrip_witness :
  Posix.split (Posix.quote "it's a file") = Ok ["it's a file"].
Proof. apply split_quote_roundtrip. left. reflexivity. Defined.

Lemma split_join_roundtrip_witness :
  Posix.split (Posix.join ["cc"; "-o"; "my prog"; "it's"])
    = Ok ["cc"; "-o"; "my prog"; "it's"]
  /\ Posix.split (Posix.join [""; "cc"; "-o"; "my prog"; "it's"])
    = Ok ["cc"; "-o"; "my prog"; "it's"].
Proof.
  apply split_join_roundtrip.
  repeat constructor; discriminate.
Defined.

(** The claim C5 fails in Python 3 for a letter beyond ASCII: the letter
    with the code point 233 is outside the safe set of the specification,
    and the string that is this letter requires no quoting. *)
Lemma quote_info_letter_beyond_ascii :
  String "233" "" <> ""
  /\ Py.contains "233" (String "233" "") = true
  /\ Posix.safe_char_spec "233" = false
  /\ Posix.quote_info (String "233" "") = (String "233" "", false).
Proof. repeat split; discriminate. Qed.

End QuotingEvaluated.

(** ** Escaping for the build file *)

Lemma re_sub_prefix_sigil (cls : ascii -> bool) (special : list ascii)
    (s : string) :
  (forall c, cls c = true <-> c ∈ special) ->
  Py.re_sub cls (fun c => String "$" (String c "")) s
  = prefix_sigil_spec special s.
Proof.
  intros Hcls. unfold prefix_sigil_spec.
  induction s as [|c s IH]; [reflexivity|].
  simpl. rewrite IH.
  destruct (decide (c ∈ special)) as [Hin|Hout].
  - apply Hcls in Hin. now rewrite Hin.
  - destruct (cls c) eqn:E; [|reflexivity]. apply Hcls in E. contradiction.
Qed.

Lemma replace_prefix_sigil (s : string) :
  Py.replace "$" "$$" s = prefix_sigil_spec ["$"%char] s.
Proof.
  unfold prefix_sigil_spec. induction s as [|c s IH]; [reflexivity|].
  simpl. rewrite IH.
  destruct (Ascii.eqb_spec c "$") as [->|Hne].
  - reflexivity.
  - destruct (decide (c ∈ ["$"%char])) as [Hin|_]; [|reflexivity].
    apply list_elem_of_singleton in Hin. contradiction.
Qed.

Lemma contains_elem_of (c : ascii) (s : string) :
  Py.contains c s = true <-> c ∈ list_ascii_of_string s.
Proof.
  induction s as [|d s IH]; simpl.
  - split; [discriminate | intros H; inversion H].
  - rewrite orb_true_iff, IH, elem_of_cons.
    now destruct (Ascii.eqb_spec c d); intuition congruence.
Qed.

(** C4, as the code has it.  For a string without a newline, [escape_str]
    puts [$] before every [:], space and [$] in output position, before
    every space and [$] in input position, and before every [$] in shell
    position; the fourth mode, [clean], escapes as the shell mode does. *)
Theorem escape_str_modes (s : string) :
  Py.contains Py.newline s = false ->
  Writer.escape_str s output
    = Ok (prefix_sigil_spec [":"%char; "$"%char; " "%char] s)
  /\ Writer.escape_str s input = Ok (prefix_sigil_spec ["$"%char; " "%char] s)
  /\ Writer.escape_str s shell = Ok (prefix_sigil_spec ["$"%char] s)
  /\ Writer.escape_str s clean = Ok (prefix_sigil_spec ["$"%char] s).
Proof.
  intros Hnl. unfold Writer.escape_str. rewrite Hnl.
  repeat split; f_equal.
  - apply re_sub_prefix_sigil. intros c. apply (contains_elem_of c ":$ ").
  - apply re_sub_prefix_sigil. intros c. apply (contains_elem_of c "$ ").
  - apply replace_prefix_sigil.
  - apply replace_prefix_sigil.
Qed.

Lemma escape_str_modes_witness :
  Writer.escape_str "a b:$c" output = Ok "a$ b$:$$c"
  /\ Writer.escape_str "a b:$c" input = Ok "a$ b:$$c"
  /\ Writer.escape_str "a b:$c" shell = Ok "a b:$$c"
  /\ Writer.escape_str "a b:$c" clean = Ok "a b:$$c".
Proof. apply (escape_str_modes "a b:$c"). reflexivity. Defined.

(** The claim C4 fails in the fourth mode: a sigil is doubled there. *)
Lemma escape_str_clean_not_identity :
  Py.contains Py.newline "$HOME" = false
  /\ Writer.escape_str "$HOME" clean = Ok "$$HOME"
  /\ Writer.escape_str "$HOME" clean <> Ok "$HOME".
Proof. repeat split; discriminate. Qed.

(** ** Commands *)

(** The constructor only makes objects with a command line. *)
Lemma Commands_init_nonempty {P} (commands : list (Line P))
    (environ : option (list (string * Thing P))) (self : Commands.t P) :
  Commands.init commands environ = Ok self ->
  Commands.commands self = commands /\ commands <> [].
Proof.
  destruct commands as [|c l]; simpl; [discriminate|].
  intros [= <-]. split; [reflexivity | discriminate].
Qed.

(** C3.  For a [Commands] object, which has at least one command line,
    [needs_shell] is true exactly when there is more than one command line,
    or the environment is not empty, or the one command line is a
    [shell_list], or the one command line is not iterable. *)
Theorem needs_shell_iff {P} (self : Commands.t P) :
  Commands.commands self <> [] ->
  exists b,
    Commands.needs_shell self = Ok b
    /\ (b = true <->
        (1 < length (Commands.commands self))%nat
        \/ Commands.environ self <> []
        \/ (exists args, Commands.commands self = [ShellList args])
        \/ (exists thing, Commands.commands self = [Scalar thing])).
Proof.
  destruct self as [cmds env]. simpl. intros Hne.
  destruct cmds as [|first rest]; [contradiction|].
  unfold Commands.needs_shell. simpl. eexists. split; [reflexivity|].
  rewrite !orb_true_iff. split.
  - intros [[[Henv|Hlen]|Hsl]|Hit].
    + right; left. destruct env; [discriminate | discriminate].
    + left. destruct rest; [discriminate | simpl; lia].
    + destruct rest as [|second rest]; [|left; simpl; lia].
      right; right; left. destruct first; try discriminate. eauto.
    + destruct rest as [|second rest]; [|left; simpl; lia].
      right; right; right. destruct first; try discriminate. eauto.
  - intros [Hlen|[Henv|[[args Hsl]|[thing Hsc]]]].
    + left; left; right. destruct rest; [simpl in Hlen; lia | reflexivity].
    + left; left; left. destruct env; [contradiction | reflexivity].
    + left; right. now injection Hsl as -> ->.
    + right. now injection Hsc as -> ->.
Qed.

Lemma needs_shell_iff_witness :
  exists b,
    Commands.needs_shell Dotted.export_and_compile = Ok b
    /\ (b = true <->
        (1 < length (Commands.commands Dotted.export_and_compile))%nat
        \/ Commands.environ Dotted.export_and_compile <> []
        \/ (exists args,
              Commands.commands Dotted.export_and_compile = [ShellList args])
        \/ (exists thing,
              Commands.commands Dotted.export_and_compile = [Scalar thing])).
Proof. apply (needs_shell_iff Dotted.export_and_compile). discriminate. Defined.

(** ** The build file: variables *)

Section Variables.
Context {py : Py.Python} `{Ext : Externals}.
Import NinjaFile.

(** A declared name: both outcomes of [variable] leave the file as it
    was. *)
Lemma variable_declared (self : t) (name : var_arg) (value : Value Path)
    (section : Section_) (exist_ok : bool) :
  has_variable name self = true ->
  variable name value section exist_ok self
  = (if exist_ok then Ok (var name)
     else Raise (VariableExists (Variable_.name (var name))),
     self).
Proof.
  intros Hdecl. unfold variable, bind, gets.
  change (has_variable (ByVariable (var name)) self)
    with (has_variable name self).
  rewrite Hdecl. now destruct exist_ok.
Qed.

(** C8.  When the normalized name is declared, [variable] with
    [exist_ok=False] raises the already-exists error, and with
    [exist_ok=True] it returns the declared variable; the variable table
    and the sections get no new entry. *)
Theorem variable_redeclare (self : t) (name : var_arg)
    (value : Value Path) (section : Section_) :
  has_variable name self = true ->
  variable name value section false self
    = (Raise (VariableExists (Variable_.name (var name))), self)
  /\ variable name value section true self = (Ok (var name), self)
  /\ var name ∈ _var_table self.
Proof.
  intros Hdecl. rewrite !(variable_declared _ _ _ _ _ Hdecl).
  repeat split. unfold has_variable in Hdecl.
  now apply bool_decide_eq_true in Hdecl.
Qed.

(** C9.  When the name is declared, [variable] with [exist_ok=True]
    changes nothing, whatever the new value and section: the variable
    table, the sections with the value declared first, the rules, the
    edges, the defaults and the watermark are as before. *)
Theorem variable_exist_ok_frame (self : t) (name : var_arg)
    (value : Value Path) (section : Section_) :
  has_variable name self = true ->
  let after := snd (variable name value section true self) in
  after = self
  /\ _var_table after = _var_table self
  /\ (forall s, _variables after s = _variables self s)
  /\ _rules after = _rules self
  /\ _builds after = _builds self
  /\ _build_outputs after = _build_outputs self
  /\ _defaults after = _defaults self
  /\ _min_version after = _min_version self
  /\ (forall s first, (var name, first) ∈ _variables self s ->
                      (var name, first) ∈ _variables after s).
Proof.
  intros Hdecl. rewrite (variable_declared _ _ _ _ _ Hdecl). simpl.
  repeat split; auto.
Qed.

End Variables.

(** ** The build file: the required version *)

Section Watermark.
Context {py : Py.Python} `{Ext : Externals}.
Import NinjaFile.

(** The order of the versions is strict. *)
Hypothesis version_gt_irrefl : forall v, version_gt v v = false.
Hypothesis version_gt_trans : forall a b c,
  version_gt a b = true -> version_gt b c = true -> version_gt a c = true.

Lemma watermark_of_version_before (self : t) :
  watermark_of (version_before self) (_min_version self).
Proof.
  unfold watermark_of, version_before, greatest.
  destruct (_min_version self) as [w|]; [|reflexivity].
  split; [set_solver|].
  intros v ->%list_elem_of_singleton. apply version_gt_irrefl.
Qed.

Lemma not_gt_after_raise (x v w : VersionT) :
  version_gt v w = true -> version_gt x w = false -> version_gt x v = false.
Proof.
  intros Hvw Hxw. destruct (version_gt x v) eqn:Hxv; [|reflexivity].
  now rewrite (version_gt_trans x v w Hxv Hvw) in Hxw.
Qed.

Lemma min_version_step (self : t) (version : string)
    (seen : list VersionT) :
  watermark_of seen (_min_version self) ->
  exists after,
    min_version version self = (Ok tt, after)
    /\ after = set_min_version (_min_version after) self
    /\ watermark_of (seen ++ [Version version]) (_min_version after).
Proof.
  unfold min_version, modify, watermark_of, greatest.
  destruct self as [f m vt vs rs bs os ds]; simpl.
  destruct m as [current|]; simpl.
  - intros [Hin Hmax].
    destruct (version_gt (Version version) current) eqn:Hgt; simpl.
    + eexists. split; [reflexivity|]. split; [reflexivity|]. split.
      * set_solver.
      * intros v [Hv | ->%list_elem_of_singleton]%elem_of_app.
        -- apply (not_gt_after_raise v _ current Hgt). now apply Hmax.
        -- apply version_gt_irrefl.
    + eexists. split; [reflexivity|]. split; [reflexivity|]. split.
      * set_solver.
      * intros v [Hv | ->%list_elem_of_singleton]%elem_of_app.
        -- now apply Hmax.
        -- exact Hgt.
  - intros ->. eexists. split; [reflexivity|]. split; [reflexivity|]. split.
    + set_solver.
    + intros v ->%list_elem_of_singleton. apply version_gt_irrefl.
Qed.

Lemma min_version_each (versions : list string) :
  forall (self : t) (seen : list VersionT),
    watermark_of seen (_min_version self) ->
    exists after,
      for_each versions min_version self = (Ok tt, after)
      /\ after = set_min_version (_min_version after) self
      /\ watermark_of (seen ++ map Version versions) (_min_version after).
Proof.
  induction versions as [|version versions IH]; intros self seen Hseen.
  - exists self. split; [reflexivity|]. split; [now destruct self|].
    simpl. now rewrite (right_id_L [] (++)).
  - destruct (min_version_step self version seen Hseen)
      as (mid & Hstep & Hframe & Hmid).
    destruct (IH mid _ Hmid) as (after & Hrest & Hframe' & Hafter).
    exists after. split; [|split].
    + simpl. unfold mbind, M_bind, bind. now rewrite Hstep.
    + rewrite Hframe', Hframe. now destruct self.
    + simpl. now rewrite <- (assoc_L (++)) in Hafter.
Qed.

(** C7.  After the calls [min_version(v1)], ..., [min_version(vn)] on a
    file, the watermark is a greatest one among the version the file had
    and [v1], ..., [vn]; on a new file, among [v1], ..., [vn].  No call
    lowers it: the version the file had is not greater than the one it
    has afterwards.  Nothing else in the file changes. *)
Theorem min_version_maximum (self : t) (versions : list string) :
  exists after,
    for_each versions min_version self = (Ok tt, after)
    /\ after = set_min_version (_min_version after) self
    /\ watermark_of (version_before self ++ map Version versions)
         (_min_version after)
    /\ (_min_version self = None ->
        watermark_of (map Version versions) (_min_version after))
    /\ (forall before, _min_version self = Some before ->
        exists w, _min_version after = Some w
                  /\ version_gt before w = false).
Proof.
  destruct (min_version_each versions self _ (watermark_of_version_before self))
    as (after & Hrun & Hframe & Hwater).
  exists after. split; [exact Hrun|]. split; [exact Hframe|].
  split; [exact Hwater|]. split.
  - intros Hnone. unfold version_before in Hwater. now rewrite Hnone in Hwater.
  - intros before Hbefore. unfold version_before in Hwater.
    rewrite Hbefore in Hwater. unfold watermark_of in Hwater.
    destruct (_min_version after) as [w|]; [|discriminate Hwater].
    exists w. split; [reflexivity|]. apply Hwater. set_solver.
Qed.

End Watermark.

(** ** The build file: edges *)

Section Edges.
Context {py : Py.Python} `{Ext : Externals}.
Import NinjaFile.

Lemma set_build_outputs_same (self : t) :
  set_build_outputs (_build_outputs self) self = self.
Proof. now destruct self. Qed.

Lemma set_build_outputs_twice (x y : gset (Target Path)) (self : t) :
  set_build_outputs x (set_build_outputs y self) = set_build_outputs x self.
Proof. now destruct self. Qed.


Lemma build_output_registered (i : Target Path) (self : t) :
  i ∈ _build_outputs self ->
  build_output i self
  = (Raise match format_target i with
           | Ok _ => BuildExists
           | Raise e => e
           end, self).
Proof.
  intros Hi. unfold build_output.
  erewrite bind_ok by reflexivity.
  unfold has_build. rewrite (bool_decide_eq_true_2 _ Hi).
  unfold bind, lift, raise. now destruct (format_target i).
Qed.

Lemma build_output_fresh (i : Target Path) (self : t) :
  i ∉ _build_outputs self ->
  build_output i self
  = (Ok tt, set_build_outputs ({[i]} ∪ _build_outputs self) self).
Proof.
  intros Hi. unfold build_output.
  erewrite bind_ok by reflexivity.
  unfold has_build. now rewrite (bool_decide_eq_false_2 _ Hi).
Qed.




End Edges.

(** ** The build file: serialization *)

Section Rendering.
Context {py : Py.Python} `{Ext : Externals}.
Import NinjaFile.

(** C2.  On a new file, declare the rule [cc] with the one command line
    [cc -c $in -o $out] and then the edge with output [main.o], rule [cc]
    and input [main.c].  Both calls succeed, and the file is written as
    the header, the block [rule cc] with its [command =] line, one empty
    line, and the line [build main.o: cc main.c], in this order. *)
Theorem rule_then_build_text (bfgfile : string) :
  exists file,
    (rule "cc"
       (AsLines [Args [Str "cc"; Str "-c"; Str "$in"; Str "-o"; Str "$out"]])
       None None false None false;;
     build (Iterutils.Many [Named "main.o"]) "cc"
       (Iterutils.Many [Str "main.c"]) Iterutils.None_ Iterutils.None_ None)
      (init bfgfile) = (Ok tt, file)
    /\ write file ""
       = (Ok tt,
          _comment_tmpl bfgfile +:+ nl +:+ nl
          +:+ "rule cc" +:+ nl
          +:+ "  command = cc -c '$$in' -o '$$out'" +:+ nl
          +:+ nl
          +:+ "build main.o: cc main.c" +:+ nl
          +:+ nl).
Proof.
  eexists. split; [vm_compute; reflexivity|].
  cbv -[String.append]. f_equal.
  rewrite !str_app_assoc. reflexivity.
Qed.

End Rendering.

(** ** The statements at the instance *)

Lemma Dotted_gt_irrefl (v : list nat) : Dotted.gt v v = false.
Proof.
  induction v as [|x v IH]; simpl; [reflexivity|].
  now rewrite Nat.ltb_irrefl, Nat.eqb_refl.
Qed.

Lemma Dotted_gt_trans (a b c : list nat) :
  Dotted.gt a b = true -> Dotted.gt b c = true -> Dotted.gt a c = true.
Proof.
  revert b c. induction a as [|x a IH]; intros [|y b] [|z c]; simpl;
    try (intros; congruence).
  destruct (Nat.ltb_spec y x), (Nat.ltb_spec z y), (Nat.ltb_spec z x);
    try reflexivity; try lia;
    destruct (Nat.eqb_spec x y), (Nat.eqb_spec y z), (Nat.eqb_spec x z);
    try (intros; congruence); try lia.
  apply IH.
Qed.

Section Evaluated.
#[local] Existing Instance Py.python3.
#[local] Existing Instance Dotted.externals.
Import NinjaFile.

Lemma min_version_maximum_witness :
  exists after,
    for_each ["1.5"; "1.10"; "1.2"] min_version (init "build.bfg")
      = (Ok tt, after)
    /\ watermark_of (map Version ["1.5"; "1.10"; "1.2"])
         (_min_version after).
Proof.
  destruct (@min_version_maximum Dotted.externals
              Dotted_gt_irrefl Dotted_gt_trans
              (init "build.bfg") ["1.5"; "1.10"; "1.2"])
    as (after & Hrun & _ & _ & Hnew & _).
  exists after. split; [exact Hrun|]. apply Hnew. reflexivity.
Defined.

Lemma variable_redeclare_witness :
  variable (ByName "cc") (Plain (Args [Str "clang"])) Section_flags false
    Dotted.one_variable
    = (Raise (VariableExists "cc"), Dotted.one_variable)
  /\ variable (ByName "cc") (Plain (Args [Str "clang"])) Section_flags true
       Dotted.one_variable
     = (Ok (var (ByName "cc")), Dotted.one_variable)
  /\ var (ByName "cc") ∈ _var_table Dotted.one_variable.
Proof.
  apply (variable_redeclare Dotted.one_variable (ByName "cc")).
  vm_compute. reflexivity.
Defined.

Lemma variable_exist_ok_frame_witness :
  snd (variable (ByName "cc") (Plain (Args [Str "clang"])) Section_flags
         true Dotted.one_variable)
  = Dotted.one_variable.
Proof.
  apply (variable_exist_ok_frame Dotted.one_variable (ByName "cc")).
  vm_compute. reflexivity.
Defined.



End Evaluated.

(* ===================================================================== *)
(** * More of iterutils.py *)
(* ===================================================================== *)

Section MoreIterutils.
Import Iterutils.

Lemma tween_from_length {A} (iterable : list A) (delim : A)
    (prefix suffix : option A) (first : bool) :
  iterable <> [] ->
  length (tween_from first iterable delim prefix suffix)
  = (2 * length iterable - 1
     + (if first then match prefix with Some _ => 1 | None => 0 end else 1)
     + match suffix with Some _ => 1 | None => 0 end)%nat.
Proof.
  revert first. induction iterable as [|i rest IH]; intros first Hne.
  - contradiction.
  - simpl tween_from. rewrite length_app. simpl length.
    destruct rest as [|j rest].
    + simpl. destruct first, prefix, suffix; simpl; lia.
    + rewrite IH by discriminate. simpl length.
      destruct first, prefix, suffix; simpl; lia.
Qed.

Lemma tween_from_lookup {A} (iterable : list A) (delim : A)
    (suffix : option A) (k : nat) :
  (k < length iterable)%nat ->
  tween_from false iterable delim None suffix !! (2 * k + 1)%nat
  = iterable !! k
  /\ tween_from false iterable delim None suffix !! (2 * k)%nat = Some delim.
Proof.
  revert k. induction iterable as [|i rest IH]; intros k Hk.
  - simpl in Hk. lia.
  - destruct k as [|k].
    + split; reflexivity.
    + simpl in Hk. destruct (IH k ltac:(lia)) as [Hodd Heven].
      replace (2 * S k + 1)%nat with (S (S (2 * k + 1))) by lia.
      replace (2 * S k)%nat with (S (S (2 * k))) by lia.
      split; [exact Hodd | exact Heven].
Qed.

Lemma tween_from_closed {A} (rest : list A) (delim : A)
    (prefix suffix : option A) :
  tween_from false rest delim prefix suffix
  = flat_map (fun x => [delim; x]) rest ++ option_list suffix.
Proof.
  induction rest as [|i rest IH]; simpl; [now destruct suffix|].
  now rewrite IH.
Qed.

(** X1.  [tween] of an empty iterable yields nothing, whatever prefix and
    suffix are.  Of the items [i :: rest] it yields the prefix, if there
    is one, then [i], then the delimiter and the item for every item of
    [rest], and at last the suffix, if there is one; so the first object
    is the prefix and the last one the suffix when they are given.
    Without a prefix there are [2n - 1] objects and the suffix: the items
    in their order at the even places and the delimiter at the odd places
    between them. *)
Theorem tween_places {A} (iterable : list A) (delim : A)
    (prefix suffix : option A) :
  tween [] delim prefix suffix = []
  /\ (forall i rest, iterable = i :: rest ->
        tween iterable delim prefix suffix
        = option_list prefix ++ i :: flat_map (fun x => [delim; x]) rest
          ++ option_list suffix)
  /\ (forall p, iterable <> [] -> prefix = Some p ->
        head (tween iterable delim prefix suffix) = Some p)
  /\ (forall s, iterable <> [] -> suffix = Some s ->
        last (tween iterable delim prefix suffix) = Some s)
  /\ (iterable <> [] ->
      length (tween iterable delim None suffix)
      = (2 * length iterable - 1
         + match suffix with Some _ => 1 | None => 0 end)%nat)
  /\ (forall k, (k < length iterable)%nat ->
        tween iterable delim None suffix !! (2 * k)%nat = iterable !! k)
  /\ (forall k, (S k < length iterable)%nat ->
        tween iterable delim None suffix !! (2 * k + 1)%nat = Some delim).
Proof.
  assert (Hclosed : forall i rest, iterable = i :: rest ->
            tween iterable delim prefix suffix
            = option_list prefix ++ i :: flat_map (fun x => [delim; x]) rest
              ++ option_list suffix).
  { intros i rest ->. unfold tween. simpl. rewrite tween_from_closed.
    now destruct prefix. }
  split; [reflexivity|]. split; [exact Hclosed|].
  split; [|split; [|split; [|split]]].
  - intros p Hne ->. destruct iterable as [|i rest]; [contradiction|].
    now rewrite (Hclosed i rest eq_refl).
  - intros y Hne ->. destruct iterable as [|i rest]; [contradiction|].
    rewrite (Hclosed i rest eq_refl). simpl option_list at 2.
    rewrite app_comm_cons, app_assoc. apply last_snoc.
  - intros Hne. unfold tween. rewrite tween_from_length by exact Hne. lia.
  - intros k Hk. unfold tween. destruct iterable as [|i rest].
    + simpl in Hk. lia.
    + destruct k as [|k]; [reflexivity|]. simpl in Hk.
      replace (2 * S k)%nat with (S (2 * k + 1)) by lia.
      simpl. now apply tween_from_lookup; lia.
  - intros k Hk. unfold tween. destruct iterable as [|i rest].
    + simpl in Hk. lia.
    + simpl in Hk. replace (2 * k + 1)%nat with (S (2 * k)) by lia.
      simpl. now apply tween_from_lookup; lia.
Qed.

(** What the generator yields, given what it has seen: the items not
    seen before, each once and in the order of its first place. *)
Lemma generate_uniques_spec `{Countable A} (iterable : list A) :
  forall seen : gset A,
    NoDup (generate_uniques seen iterable)
    /\ (forall x, x ∈ generate_uniques seen iterable
                  <-> x ∈ iterable /\ x ∉ seen)
    /\ generate_uniques seen iterable `sublist_of` iterable.
Proof.
  induction iterable as [|item rest IH]; intros seen; simpl.
  - split; [constructor|]. split; [|constructor].
    intros x. split; [intros Hx; inversion Hx | intros [Hx _]; inversion Hx].
  - destruct (decide (item ∈ seen)) as [Hseen|Hnew].
    + destruct (IH seen) as (Hnd & Hel & Hsub).
      split; [exact Hnd|]. split; [|now apply sublist_cons].
      intros x. rewrite Hel, elem_of_cons. split.
      * intros [Hx Hs]. split; [now right | exact Hs].
      * intros [[-> | Hx] Hs]; [contradiction | now split].
    + destruct (IH ({[item]} ∪ seen)) as (Hnd & Hel & Hsub).
      split; [|split; [|now apply sublist_skip]].
      * constructor; [|exact Hnd]. rewrite Hel. intros [_ Hout].
        apply Hout, elem_of_union. left. now apply elem_of_singleton.
      * intros x. rewrite !elem_of_cons, Hel, elem_of_union, elem_of_singleton.
        split.
        -- intros [-> | [Hx Hs]]; [split; [now left | exact Hnew]|].
           split; [now right | intros Hin; apply Hs; now right].
        -- intros [[-> | Hx] Hs]; [now left|].
           destruct (decide (x = item)) as [-> | Hne]; [now left|].
           right. split; [exact Hx|]. now intros [Heq | Hin].
Qed.

Lemma generate_uniques_nodup `{Countable A} (iterable : list A) :
  forall seen : gset A,
    NoDup iterable -> (forall x, x ∈ iterable -> x ∉ seen) ->
    generate_uniques seen iterable = iterable.
Proof.
  induction iterable as [|item rest IH]; intros seen Hnd Hnew;
    [reflexivity|].
  apply NoDup_cons in Hnd as [Hitem Hrest]. simpl.
  destruct (decide (item ∈ seen)) as [Hseen|_].
  - exfalso. apply (Hnew item); [now left | exact Hseen].
  - f_equal. apply IH; [exact Hrest|].
    intros x Hx [->%elem_of_singleton | Hs]%elem_of_union;
      [contradiction|].
    apply (Hnew x); [now right | exact Hs].
Qed.

(** One more item at the end: the generator yields it at the end, when
    it has not seen it. *)
Lemma generate_uniques_snoc `{Countable A} (iterable : list A) (x : A) :
  forall seen : gset A,
    generate_uniques seen (iterable ++ [x])
    = generate_uniques seen iterable
      ++ (if bool_decide (x ∈ seen \/ x ∈ iterable) then [] else [x]).
Proof.
  induction iterable as [|item rest IH]; intros seen; simpl.
  - destruct (decide (x ∈ seen)) as [Hx|Hx].
    + rewrite bool_decide_eq_true_2; [reflexivity | now left].
    + rewrite bool_decide_eq_false_2; [reflexivity|].
      intros [Hs | Hin]; [contradiction | inversion Hin].
  - destruct (decide (item ∈ seen)) as [Hseen|Hnew].
    + rewrite IH.
      assert (Hiff : x ∈ seen \/ x ∈ rest <-> x ∈ seen \/ x ∈ item :: rest).
      { rewrite elem_of_cons. split; [intros [Hs | Hr]; auto|].
        intros [Hs | [-> | Hr]]; auto. }
      now rewrite (bool_decide_ext _ _ Hiff).
    + rewrite IH.
      assert (Hiff : x ∈ {[item]} ∪ seen \/ x ∈ rest
                     <-> x ∈ seen \/ x ∈ item :: rest).
      { rewrite elem_of_cons, elem_of_union, elem_of_singleton. tauto. }
      now rewrite (bool_decide_ext _ _ Hiff).
Qed.

(** X2.  [uniques] keeps exactly the objects of its argument, each once,
    in the order of their first places: an object put at the end of the
    argument comes at the end of the result when it is new, and is left
    out when the argument has it already.  A list without repetitions
    comes back as it is, and so does the result of [uniques] itself. *)
Theorem uniques_spec `{Countable A} (iterable : list A) :
  NoDup (uniques iterable)
  /\ (forall x, x ∈ uniques iterable <-> x ∈ iterable)
  /\ uniques iterable `sublist_of` iterable
  /\ uniques ([] : list A) = []
  /\ (forall x,
        uniques (iterable ++ [x])
        = if bool_decide (x ∈ iterable) then uniques iterable
          else uniques iterable ++ [x])
  /\ (NoDup iterable -> uniques iterable = iterable)
  /\ uniques (uniques iterable) = uniques iterable.
Proof.
  destruct (generate_uniques_spec iterable ∅) as (Hnd & Hel & Hsub).
  assert (Hfix : forall l : list A, NoDup l -> uniques l = l).
  { intros l Hl. apply generate_uniques_nodup; [exact Hl|].
    intros x _. apply not_elem_of_empty. }
  split; [exact Hnd|].
  split; [|split; [exact Hsub|split; [reflexivity|split; [|split]]]].
  - intros x. unfold uniques. rewrite Hel. split; [now intros [Hx _]|].
    intros Hx. split; [exact Hx | apply not_elem_of_empty].
  - intros x. unfold uniques. rewrite generate_uniques_snoc.
    assert (Hiff : x ∈ (∅ : gset A) \/ x ∈ iterable <-> x ∈ iterable).
    { split; [|now right]. intros [Hempty | Hin]; [|exact Hin].
      now apply not_elem_of_empty in Hempty. }
    rewrite (bool_decide_ext _ _ Hiff).
    destruct (bool_decide (x ∈ iterable));
      [apply app_nil_r | reflexivity].
  - apply Hfix.
  - apply Hfix, Hnd.
Qed.

(** X3.  [unlistify] and [listify] undo each other on lists of objects
    that are neither [None] nor iterable: [listify] of [unlistify(l)] is
    [l], and [unlistify] of [listify(thing)] is [thing], but for the empty
    list, which becomes [None], and the list of one object, which becomes
    the object. *)
Theorem unlistify_listify {A} (l : list A) (thing : arg A) :
  listify (unlistify l) = l
  /\ unlistify (listify thing)
     = match thing with
       | Many [] => None_
       | Many [x] => One x
       | _ => thing
       end.
Proof.
  split.
  - destruct l as [|x [|y l]]; reflexivity.
  - destruct thing as [|x|[|x [|y l']]]; reflexivity.
Qed.

(** X4.  [first] gives the first object of [listify(thing)]; when there is
    none it gives the default, and raises [LookupError] exactly when there
    is neither an object nor a default. *)
Theorem first_spec {A} (thing : arg A) (default : option A) :
  (forall x rest, listify thing = x :: rest -> first thing default = Found x)
  /\ (listify thing = [] ->
      first thing default
      = match default with Some d => Found d | None => LookupError end)
  /\ (first thing default = LookupError
      <-> listify thing = [] /\ default = None).
Proof.
  unfold first. replace (iterate thing) with (listify thing)
    by now destruct thing.
  destruct (listify thing) as [|y l].
  - split; [discriminate|]. split; [reflexivity|].
    destruct default; split; [discriminate | now intros [_ ?] | | ]; auto.
  - split; [now intros x rest [= -> _]|]. split; [discriminate|].
    split; [discriminate | now intros [? _]].
Qed.

Lemma combine_app_same {A B} (a : list A) :
  forall (b : list A) (c d : list B),
    length a = length c ->
    combine (a ++ b) (c ++ d) = combine a c ++ combine b d.
Proof.
  induction a as [|x a IH]; intros b [|y c] d Hlen; try discriminate;
    [reflexivity|].
  simpl. f_equal. apply IH. now injection Hlen.
Qed.

Lemma combine_fst_snd {A B} (a : list A) :
  forall c : list B,
    length a = length c ->
    map fst (combine a c) = a /\ map snd (combine a c) = c.
Proof.
  induction a as [|x a IH]; intros [|y c] Hlen; try discriminate;
    [now split|].
  injection Hlen as Hlen. destruct (IH c Hlen) as [Hf Hs].
  simpl. now rewrite Hf, Hs.
Qed.

Lemma combine_seq_lookup {A} (l : list A) :
  forall (start i : nat) (x : A),
    (i, x) ∈ combine (seq start (length l)) l
    <-> (start <= i)%nat /\ l !! (i - start)%nat = Some x.
Proof.
  induction l as [|y l IH]; intros start i x; simpl.
  - split; [intros H; inversion H | now intros [_ ?]].
  - rewrite elem_of_cons, IH. split.
    + intros [[= -> ->] | [Hle Hx]].
      * split; [lia|]. now rewrite Nat.sub_diag.
      * split; [lia|]. now replace (i - start)%nat with (S (i - S start)) by lia.
    + intros [Hle Hx]. destruct (decide (i = start)) as [-> | Hne].
      * left. rewrite Nat.sub_diag in Hx. simpl in Hx. congruence.
      * right. split; [lia|].
        now replace (i - start)%nat with (S (i - S start)) in Hx by lia.
Qed.

(** X5.  [reverse_enumerate] pairs every object with its index, last
    place first: [(i, x)] is among the pairs exactly when [x] is at place
    [i], and the objects come in reverse order. *)
Theorem reverse_enumerate_spec {A} (iterable : list A) :
  (forall i x, (i, x) ∈ reverse_enumerate iterable <-> iterable !! i = Some x)
  /\ map snd (reverse_enumerate iterable) = rev iterable
  /\ map fst (reverse_enumerate iterable) = rev (seq 0 (length iterable)).
Proof.
  assert (Hrev : reverse_enumerate iterable
                 = rev (combine (seq 0 (length iterable)) iterable)).
  { unfold reverse_enumerate. revert iterable.
    assert (Hgen : forall (l : list A) (ns : list nat),
               length ns = length l ->
               combine (rev ns) (rev l) = rev (combine ns l)).
    { intros l. induction l as [|y l IH]; intros [|n ns] Hlen;
        try discriminate; [reflexivity|].
      simpl in Hlen. injection Hlen as Hlen. simpl.
      rewrite <- (IH ns Hlen).
      rewrite combine_app_same by (rewrite !length_rev; exact Hlen).
      reflexivity. }
    intros l. apply Hgen. apply length_seq. }
  split; [|split].
  - intros i x. rewrite Hrev, list_elem_of_In, <- in_rev, <- list_elem_of_In, combine_seq_lookup.
    rewrite Nat.sub_0_r. split; [now intros [_ ?] | split; [lia | easy]].
  - rewrite Hrev, map_rev. f_equal.
    apply combine_fst_snd, length_seq.
  - rewrite Hrev, map_rev. f_equal.
    apply combine_fst_snd, length_seq.
Qed.

End MoreIterutils.

(* ===================================================================== *)
(** * More of shell/posix.py: what [split] does with quotes and blanks *)
(* ===================================================================== *)

Section MoreTokens.
Import Posix.

Lemma quotes_not_whitespace (c : ascii) :
  quotes c = true -> whitespace c = false.
Proof.
  destruct c as [[] [] [] [] [] [] [] []]; vm_compute; intros H;
    (discriminate H || reflexivity).
Qed.

Lemma yield_token (quoted : bool) (token : string)
    (more : result (list string)) :
  negb (Py.is_empty token) || quoted = true ->
  yield quoted token more = result_map (cons token) more.
Proof.
  unfold yield, token_result. destruct quoted, token; simpl;
    (discriminate || reflexivity).
Qed.

(** Inside quotes everything up to the closing quote is text. *)
Lemma tokens_in_quote (q : ascii) (s : string) :
  forall (quoted : bool) (token rest : string),
    Py.contains q s = false ->
    tokens (InQuote q) quoted token (s +:+ String q rest)
    = tokens InWord true (token +:+ s) rest.
Proof.
  induction s as [|c s IH]; intros quoted token rest Hq.
  - simpl. now rewrite Ascii.eqb_refl, str_app_nil_r.
  - simpl in Hq. apply orb_false_elim in Hq as [Hc Hs].
    simpl. rewrite Ascii.eqb_sym, Hc, (IH _ _ _ Hs).
    now rewrite str_app_snoc.
Qed.

Lemma tokens_in_quote_unclosed (q : ascii) (s : string) :
  forall (quoted : bool) (token : string),
    Py.contains q s = false ->
    tokens (InQuote q) quoted token s = Raise NoClosingQuotation.
Proof.
  induction s as [|c s IH]; intros quoted token Hq; [reflexivity|].
  simpl in Hq. apply orb_false_elim in Hq as [Hc Hs].
  simpl. rewrite Ascii.eqb_sym, Hc. now apply IH.
Qed.

Lemma tokens_unclosed (q : ascii) (s p : string) :
  quotes q = true -> Py.contains q s = false ->
  forall (state : lex_state) (quoted : bool) (token : string),
    state = InSpace \/ state = InWord ->
    Py.re_search quotes p = false ->
    tokens state quoted token (p +:+ String q s) = Raise NoClosingQuotation.
Proof.
  intros Hq Hs. induction p as [|c p IH]; intros state quoted token Hst Hp.
  - simpl. rewrite (quotes_not_whitespace q Hq), Hq.
    destruct Hst as [-> | ->]; now apply tokens_in_quote_unclosed.
  - simpl in Hp. apply orb_false_elim in Hp as [Hc Hp].
    assert (Hspace : forall qd tk,
              tokens InSpace qd tk (p +:+ String q s)
              = Raise NoClosingQuotation) by (intros; apply IH; auto).
    assert (Hword : forall qd tk,
              tokens InWord qd tk (p +:+ String q s)
              = Raise NoClosingQuotation) by (intros; apply IH; auto).
    destruct Hst as [-> | ->]; simpl; rewrite Hc;
      destruct (whitespace c);
      try destruct (negb (Py.is_empty token) || quoted) eqn:E;
      rewrite ?(yield_token _ _ _ E), ?Hspace, ?Hword; reflexivity.
Qed.

(** X6.  A quote that is opened outside of quoted text and never closed
    makes [split] raise: whatever comes before it, tokens included, is
    lost with the error. *)
Theorem split_unclosed_quote (p : string) (q : ascii) (s : string) :
  Py.re_search quotes p = false ->
  quotes q = true ->
  Py.contains q s = false ->
  split (p +:+ String q s) = Raise NoClosingQuotation.
Proof.
  intros Hp Hq Hs. unfold split. apply tokens_unclosed; auto.
Qed.

Lemma split_unclosed_quote_witness :
  split "cc -o 'my prog" = Raise NoClosingQuotation.
Proof.
  apply (split_unclosed_quote "cc -o " "'" "my prog"); reflexivity.
Defined.

(** X7.  Text between two quotes of one kind is one token, read as it
    stands: blanks, the quote of the other kind and backslashes are text,
    and the token may be empty. *)
Theorem split_quoted_verbatim (q : ascii) (s : string) :
  quotes q = true ->
  Py.contains q s = false ->
  split (String q (s +:+ String q "")) = Ok [s].
Proof.
  intros Hq Hs. unfold split. simpl.
  rewrite (quotes_not_whitespace q Hq), Hq, (tokens_in_quote q s _ _ _ Hs).
  simpl. unfold yield, token_result. reflexivity.
Qed.

Lemma split_quoted_verbatim_witness :
  split "'a \ b'" = Ok ["a \ b"] /\ split "''" = Ok [""].
Proof.
  split.
  - apply (split_quoted_verbatim "'" "a \ b"); reflexivity.
  - apply (split_quoted_verbatim "'" ""); reflexivity.
Defined.

Lemma tokens_skip_blank (b : string) :
  forall rest : string,
    Py.re_search (fun c => negb (whitespace c)) b = false ->
    tokens InSpace false "" (b +:+ rest) = tokens InSpace false "" rest.
Proof.
  induction b as [|c b IH]; intros rest Hb; [reflexivity|].
  simpl in Hb. apply orb_false_elim in Hb as [Hc Hb].
  apply negb_false_iff in Hc. simpl. rewrite Hc. now apply IH.
Qed.

Lemma tokens_word_chars (w : string) :
  forall (quoted : bool) (token rest : string),
    Py.re_search (fun c => whitespace c || quotes c) w = false ->
    tokens InWord quoted token (w +:+ rest)
    = tokens InWord quoted (token +:+ w) rest.
Proof.
  induction w as [|c w IH]; intros quoted token rest Hw.
  - simpl. now rewrite str_app_nil_r.
  - simpl in Hw. apply orb_false_elim in Hw as [Hc Hw].
    apply orb_false_elim in Hc as [Hws Hq].
    simpl. rewrite Hws, Hq, (IH _ _ _ Hw). now rewrite str_app_snoc.
Qed.

Lemma tokens_space_word (w rest : string) :
  w <> "" ->
  Py.re_search (fun c => whitespace c || quotes c) w = false ->
  tokens InSpace false "" (w +:+ rest) = tokens InWord false w rest.
Proof.
  destruct w as [|c w]; [congruence|]. intros _ Hw.
  simpl in Hw. apply orb_false_elim in Hw as [Hc Hw].
  apply orb_false_elim in Hc as [Hws Hq].
  simpl. rewrite Hws, Hq. now rewrite (tokens_word_chars w _ _ _ Hw).
Qed.

Lemma tokens_word_then_blank (w b : string) :
  w <> "" ->
  Py.re_search (fun c => negb (whitespace c)) b = false ->
  tokens InWord false w b = Ok [w].
Proof.
  intros Hw Hb. destruct b as [|c b].
  - now apply tokens_word_end.
  - simpl in Hb. apply orb_false_elim in Hb as [Hc Hb].
    apply negb_false_iff in Hc. simpl. rewrite Hc.
    destruct w as [|d w]; [congruence|]. simpl.
    rewrite yield_token by reflexivity.
    rewrite <- (str_app_nil_r b), (tokens_skip_blank b "" Hb). reflexivity.
Qed.

Lemma tokens_words (words : list string) (after : string) :
  Forall (fun w => w <> ""
                   /\ Py.re_search (fun c => whitespace c || quotes c) w
                      = false) words ->
  Py.re_search (fun c => negb (whitespace c)) after = false ->
  tokens InSpace false "" (Py.join " " words +:+ after) = Ok words.
Proof.
  intros Hwords Hafter. induction Hwords as [|w ws [Hne Hw] Hws IH].
  - simpl. rewrite <- (str_app_nil_r after).
    now rewrite (tokens_skip_blank after "" Hafter).
  - destruct ws as [|w' ws].
    + simpl. rewrite (tokens_space_word w after Hne Hw).
      now apply tokens_word_then_blank.
    + change (Py.join " " (w :: w' :: ws))
        with (w +:+ String " " (Py.join " " (w' :: ws))).
      rewrite str_app_assoc, (tokens_space_word w _ Hne Hw).
      change (String " " (Py.join " " (w' :: ws)) +:+ after)
        with (String " " (Py.join " " (w' :: ws) +:+ after)).
      rewrite (tokens_word_space false w _ Hne), IH.
      reflexivity.
Qed.

(** X8.  Words without blanks and quotes, joined by single spaces, are
    what [split] gives back, whatever blanks come before the first and
    after the last word; a string of blanks alone has no token. *)
Theorem split_words (before after : string) (words : list string) :
  Py.re_search (fun c => negb (whitespace c)) before = false ->
  Py.re_search (fun c => negb (whitespace c)) after = false ->
  Forall (fun w => w <> ""
                   /\ Py.re_search (fun c => whitespace c || quotes c) w
                      = false) words ->
  split (before +:+ Py.join " " words +:+ after) = Ok words.
Proof.
  intros Hbefore Hafter Hwords. unfold split.
  rewrite (tokens_skip_blank before _ Hbefore).
  now apply tokens_words.
Qed.

Lemma split_words_witness :
  split "  -O2 -DNAME=x $(FLAGS) " = Ok ["-O2"; "-DNAME=x"; "$(FLAGS)"].
Proof.
  apply (split_words "  " " " ["-O2"; "-DNAME=x"; "$(FLAGS)"]);
    [reflexivity | reflexivity |].
  repeat constructor; discriminate.
Defined.

End MoreTokens.

(* ===================================================================== *)
(** * More of backends/ninja/syntax.py: escaping and names *)
(* ===================================================================== *)

Lemma str_length_app (s t : string) :
  String.length (s +:+ t) = (String.length s + String.length t)%nat.
Proof. induction s as [|c s IH]; simpl; [reflexivity | now rewrite IH]. Qed.

(** [escape_str] in terms of the characters it escapes. *)
Lemma escape_str_re_sub (s : string) (syntax : Syntax) :
  Writer.escape_str s syntax
  = if Py.contains Py.newline s then Raise IllegalNewline
    else Ok (Py.re_sub (escaped_in syntax)
               (fun c => String "$" (String c "")) s).
Proof.
  unfold Writer.escape_str. destruct (Py.contains Py.newline s);
    [reflexivity|].
  destruct syntax; try reflexivity; f_equal;
    induction s as [|c s IH]; simpl; try reflexivity; rewrite IH;
    now destruct (Ascii.eqb_spec c "$") as [-> | _].
Qed.

Lemma unsigil_re_sub (cls : ascii -> bool) (s : string) :
  cls "$"%char = true ->
  unsigil (Py.re_sub cls (fun c => String "$" (String c "")) s) = s.
Proof.
  intros Hsigil. induction s as [|c s IH]; [reflexivity|].
  simpl. destruct (cls c) eqn:Hc; simpl.
  - now rewrite IH.
  - destruct (Ascii.eqb_spec c "$") as [-> | _]; [congruence|].
    now rewrite IH.
Qed.

Lemma re_sub_length (cls : ascii -> bool) (s : string) :
  (Py.re_search cls s = false ->
   Py.re_sub cls (fun c => String "$" (String c "")) s = s)
  /\ (Py.re_search cls s = true ->
      (String.length s
       < String.length (Py.re_sub cls (fun c => String "$" (String c "")) s))%nat)
  /\ (String.length s
      <= String.length (Py.re_sub cls (fun c => String "$" (String c "")) s))%nat.
Proof.
  induction s as [|c s (IHsame & IHlonger & IHle)]; simpl.
  - repeat split; [discriminate | lia].
  - destruct (cls c); simpl.
    + repeat split; [discriminate | lia | lia].
    + repeat split.
      * intros H. now rewrite (IHsame H).
      * intros H. specialize (IHlonger H). lia.
      * lia.
Qed.

(** X9.  Escaping loses nothing: two strings with the same escaped form in
    a syntax are the same string. *)
Theorem escape_str_injective (s t e : string) (syntax : Syntax) :
  Writer.escape_str s syntax = Ok e ->
  Writer.escape_str t syntax = Ok e ->
  s = t.
Proof.
  rewrite !escape_str_re_sub.
  destruct (Py.contains Py.newline s); [discriminate|].
  destruct (Py.contains Py.newline t); [discriminate|].
  intros [= <-] [= Heq].
  assert (Hsigil : escaped_in syntax "$" = true) by now destruct syntax.
  rewrite <- (unsigil_re_sub _ s Hsigil), <- (unsigil_re_sub _ t Hsigil).
  now rewrite Heq.
Qed.

Lemma escape_str_injective_witness :
  Writer.escape_str "a b" output = Ok "a$ b" /\ "a b" = "a b".
Proof.
  split; [reflexivity|].
  apply (escape_str_injective "a b" "a b" "a$ b" output); reflexivity.
Defined.

(** X10.  The strings that [escape_str] returns unchanged in a syntax are
    those without a newline and without a character that the syntax
    escapes; with a newline it raises, in every syntax, and an escaped
    form is never shorter than the string. *)
Theorem escape_str_unchanged (s : string) (syntax : Syntax) :
  (Writer.escape_str s syntax = Ok s
   <-> Py.contains Py.newline s = false
       /\ Py.re_search (escaped_in syntax) s = false)
  /\ (Writer.escape_str s syntax = Raise IllegalNewline
      <-> Py.contains Py.newline s = true)
  /\ (forall e, Writer.escape_str s syntax = Ok e ->
                (String.length s <= String.length e)%nat).
Proof.
  rewrite escape_str_re_sub.
  destruct (re_sub_length (escaped_in syntax) s) as (Hsame & Hlonger & Hle).
  destruct (Py.contains Py.newline s).
  - split; [|split].
    + split; [discriminate | now intros [? _]].
    + split; reflexivity.
    + discriminate.
  - split; [|split].
    + split.
      * intros [= Heq].
        destruct (Py.re_search (escaped_in syntax) s); [|now split].
        specialize (Hlonger eq_refl). rewrite Heq in Hlonger. lia.
      * intros [_ H]. now rewrite (Hsame H).
    + split; discriminate.
    + now intros e [= <-].
Qed.

(** X11.  The name of a [Variable] has only characters that [\w]
    matches in the interpreter, so that its characters of ASCII are
    letters, digits and underscores, and it has the length of the name
    it was made from; a name of such characters is kept, so making a
    variable from the name of a variable changes nothing, and every name
    of a variable passes the test that [rule] applies to the name of a
    rule. *)
Theorem Variable_name_normal {py : Py.Python} (n : string) :
  Py.re_search (fun c => negb (Py.word_char c))
    (Variable_.name (Variable_.init n)) = false
  /\ (forall c, Py.contains c (Variable_.name (Variable_.init n)) = true ->
                Py.is_ascii c = true ->
                Py.between "a" "z" c || Py.between "A" "Z" c
                || Py.between "0" "9" c || Ascii.eqb c "_" = true)
  /\ String.length (Variable_.name (Variable_.init n)) = String.length n
  /\ (Py.re_search (fun c => negb (Py.word_char c)) n = false ->
      Variable_.name (Variable_.init n) = n)
  /\ Variable_.init (Variable_.name (Variable_.init n)) = Variable_.init n.
Proof.
  assert (Hsafe : forall m, Py.re_search (fun c => negb (Py.word_char c))
                              (Variable_.name (Variable_.init m)) = false).
  { intros m. simpl. induction m as [|c m IH]; [reflexivity|].
    simpl. destruct (Py.word_char c) eqn:Hc; simpl; now rewrite ?Hc, IH. }
  assert (Hkeep : forall m,
             Py.re_search (fun c => negb (Py.word_char c)) m = false ->
             Variable_.name (Variable_.init m) = m).
  { intros m. simpl. induction m as [|c m IH]; [reflexivity|].
    simpl. intros [Hc Hm]%orb_false_elim. rewrite Hc. simpl.
    now rewrite (IH Hm). }
  split; [apply Hsafe|]. split; [|split; [|split; [apply Hkeep|]]].
  - intros c Hin Hc.
    destruct (Py.word_char c) eqn:Hw.
    + unfold Py.word_char in Hw. now rewrite Hc in Hw.
    + assert (Hfound : Py.re_search (fun c => negb (Py.word_char c))
                         (Variable_.name (Variable_.init n)) = true).
      { apply (contains_re_search _ c); [now rewrite Hw | exact Hin]. }
      rewrite Hsafe in Hfound. discriminate Hfound.
  - simpl. induction n as [|c n IH]; [reflexivity|].
    simpl. destruct (negb (Py.word_char c)); simpl; now rewrite IH.
  - pose proof (Hkeep _ (Hsafe n)) as H. unfold Variable_.init in *.
    simpl in *. now rewrite H.
Qed.

(* ===================================================================== *)
(** * The writer only appends *)
(* ===================================================================== *)

Lemma appends_ret {A} (a : A) : appends (mret a : M string A).
Proof. intros stream. simpl. now rewrite str_app_nil_r. Qed.

Lemma appends_raise {A} (e : exn) : appends (raise e : M string A).
Proof. intros stream. simpl. now rewrite str_app_nil_r. Qed.

Lemma appends_lift {A} (r : result A) : appends (lift r : M string A).
Proof. intros stream. simpl. now rewrite str_app_nil_r. Qed.

Lemma appends_write_literal (str : string) :
  appends (Writer.write_literal str).
Proof. intros stream. reflexivity. Qed.

Lemma appends_bind {A B} (m : M string A) (k : A -> M string B) :
  appends m -> (forall a, appends (k a)) -> appends (bind m k).
Proof.
  intros Hm Hk stream. unfold bind. rewrite (Hm stream).
  destruct (m "") as [[a|e] text]; simpl.
  - rewrite (Hk a (stream +:+ text)), (Hk a text). simpl.
    now rewrite str_app_assoc.
  - reflexivity.
Qed.

Lemma appends_seq {A B} (m : M string A) (k : M string B) :
  appends m -> appends k -> appends (m;; k).
Proof. intros Hm Hk. now apply appends_bind. Qed.

Lemma appends_when (b : bool) (m : M string unit) :
  appends m -> appends (when b m).
Proof. destruct b; [easy | intros _; apply appends_ret]. Qed.

Lemma appends_for_each {A} (l : list A) (body : A -> M string unit) :
  (forall x, appends (body x)) -> appends (for_each l body).
Proof.
  intros Hbody. induction l as [|x l IH]; [apply appends_ret|].
  now apply appends_seq.
Qed.

Lemma write_with_appends {P} (on_path : P -> Syntax -> M string bool) :
  (forall p syntax, appends (on_path p syntax)) ->
  forall (thing : Thing P) (syntax : Syntax) (shell_quote : Writer.quoter),
    appends (Writer.write_with on_path thing syntax shell_quote).
Proof.
  intros Hpath. fix IH 1. intros [s|s|s|bits|p|v|cv c|] syntax shell_quote.
  - apply appends_seq; [apply appends_write_literal | apply appends_ret].
  - apply appends_bind; [apply appends_lift|]. intros e.
    apply appends_seq; [apply appends_write_literal | apply appends_ret].
  - simpl.
    destruct (match shell_quote with
              | Some quote =>
                  if bool_decide (syntax = shell) then quote s else (s, false)
              | None => (s, false)
              end) as [s' escaped].
    apply appends_bind; [apply appends_lift|]. intros e.
    apply appends_seq; [apply appends_write_literal | apply appends_ret].
  - simpl. generalize false.
    induction bits as [|i bits IHbits]; intros escaped.
    + apply appends_ret.
    + apply appends_bind; [apply IH|]. intros e. apply IHbits.
  - apply Hpath.
  - apply appends_seq; [apply appends_write_literal | apply appends_ret].
  - apply appends_raise.
  - apply appends_raise.
Qed.

Section WriterAppends.
Context {py : Py.Python} `{Ext : Externals}.

Lemma write_path_appends (p : Path) (syntax : Syntax) :
  appends (Writer.write_path p syntax).
Proof.
  unfold Writer.write_path.
  destruct (Writer.write_realized _ _ _ _) as [[escaped|e] text].
  - apply appends_seq; [apply appends_write_literal | apply appends_ret].
  - apply appends_raise.
Qed.

Lemma write_appends (thing : Thing Path) (syntax : Syntax)
    (shell_quote : Writer.quoter) :
  appends (Writer.write thing syntax shell_quote).
Proof. apply write_with_appends, write_path_appends. Qed.

Lemma write_each_appends (things : list (Thing Path)) (syntax : Syntax)
    (delim : Thing Path) (prefix suffix : option (Thing Path)) :
  appends (Writer.write_each things syntax delim prefix suffix).
Proof.
  apply appends_for_each. intros i.
  apply appends_seq; [apply write_appends | apply appends_ret].
Qed.

Lemma write_shell_appends (line : Line Path) (syntax : Syntax) :
  appends (Writer.write_shell line syntax).
Proof.
  destruct line as [things|things|thing]; simpl;
    try apply write_each_appends.
  apply appends_seq; [apply write_appends | apply appends_ret].
Qed.

(** X12.  [Writer.write], [write_each] and [write_shell] only append: on
    a stream that holds text already they have the outcome they have on
    an empty stream and put the same text behind what the stream holds,
    also when they raise on the way. *)
Theorem Writer_appends (stream : string) :
  (forall thing syntax shell_quote,
     Writer.write thing syntax shell_quote stream
     = (fst (Writer.write thing syntax shell_quote ""),
        stream +:+ snd (Writer.write thing syntax shell_quote "")))
  /\ (forall things syntax delim prefix suffix,
        Writer.write_each things syntax delim prefix suffix stream
        = (fst (Writer.write_each things syntax delim prefix suffix ""),
           stream
           +:+ snd (Writer.write_each things syntax delim prefix suffix "")))
  /\ (forall line syntax,
        Writer.write_shell line syntax stream
        = (fst (Writer.write_shell line syntax ""),
           stream +:+ snd (Writer.write_shell line syntax ""))).
Proof.
  split; [|split]; intros.
  - apply write_appends.
  - apply write_each_appends.
  - apply write_shell_appends.
Qed.

End WriterAppends.

Section FileAppends.
Context {py : Py.Python} `{Ext : Externals}.
Import NinjaFile.

Lemma file_write_shell_appends (value : Value Path) (syntax : Syntax) :
  appends (write_shell value syntax).
Proof.
  destruct value as [line|c]; simpl.
  - apply write_shell_appends.
  - apply appends_bind; [apply appends_lift|]. intros text.
    apply appends_write_literal.
Qed.

Lemma _write_variable_appends (name : Variable_.t) (value : Value Path)
    (syntax : Syntax) (indent : nat) :
  appends (_write_variable name value syntax indent).
Proof.
  unfold _write_variable.
  apply appends_seq; [apply appends_write_literal|].
  apply appends_seq; [apply file_write_shell_appends|].
  apply appends_write_literal.
Qed.

Lemma _write_rule_appends (name : string) (rule : Rule.t Path) :
  appends (_write_rule name rule).
Proof.
  unfold _write_rule.
  repeat (apply appends_seq;
          [first [ apply appends_write_literal
                 | apply _write_variable_appends
                 | apply appends_when, _write_variable_appends
                 | idtac ] |]).
  - destruct (Rule.depfile rule);
      [apply appends_when, _write_variable_appends | apply appends_ret].
  - destruct (Rule.deps rule);
      [apply appends_when, _write_variable_appends | apply appends_ret].
  - destruct (Rule.pool rule);
      [apply appends_when, _write_variable_appends | apply appends_ret].
  - apply appends_when, _write_variable_appends.
Qed.

Lemma _write_build_appends (build : Build.t Path) :
  appends (_write_build build).
Proof.
  unfold _write_build.
  repeat (apply appends_seq;
          [first [ apply appends_write_literal
                 | apply write_each_appends ] |]).
  apply appends_for_each. intros [k v]. apply _write_variable_appends.
Qed.

(** [write] is the header and then a computation that only appends. *)
Lemma file_write_parts (self : t) :
  exists body : M string unit,
    write self
    = (Writer.write_literal (_comment_tmpl (_bfgfile self) +:+ nl +:+ nl);;
       body)
    /\ appends body.
Proof.
  eexists. split; [reflexivity|].
  apply appends_seq.
  { destruct (_min_version self); [|apply appends_ret].
    apply appends_seq;
      [apply _write_variable_appends | apply appends_write_literal]. }
  apply appends_seq.
  { apply appends_for_each. intros section. apply appends_seq.
    - apply appends_for_each. intros [name value].
      apply _write_variable_appends.
    - apply appends_when, appends_write_literal. }
  apply appends_seq.
  { apply appends_for_each. intros [name rule].
    apply appends_seq; [apply _write_rule_appends|].
    apply appends_write_literal. }
  apply appends_seq.
  { apply appends_for_each. intros build.
    apply appends_seq; [apply _write_build_appends|].
    apply appends_write_literal. }
  apply appends_when.
  apply appends_seq; [apply appends_write_literal|].
  apply appends_seq; [apply write_each_appends|].
  apply appends_write_literal.
Qed.

(** X13.  [NinjaFile.write] never changes what the stream holds: it puts
    behind it the text it writes on an empty stream, which begins with
    the header, and it has the same outcome; when it raises on the way,
    the text written so far stays. *)
Theorem NinjaFile_write_appends (self : t) (stream : string) :
  write self stream
  = (fst (write self ""), stream +:+ snd (write self ""))
  /\ exists rest,
       snd (write self "")
       = _comment_tmpl (_bfgfile self) +:+ nl +:+ nl +:+ rest.
Proof.
  destruct (file_write_parts self) as (body & -> & Hbody).
  split.
  - apply appends_seq; [apply appends_write_literal | exact Hbody].
  - exists (snd (body "")).
    unfold mbind, M_bind, bind, Writer.write_literal, modify. simpl.
    rewrite (Hbody _). simpl. now rewrite !str_app_assoc.
Qed.

End FileAppends.

(* ===================================================================== *)
(** * Writing strings and argument lists *)
(* ===================================================================== *)

(** Quoting neither adds nor removes a newline. *)
Lemma escape_newline {py : Py.Python} (s : string) :
  Py.contains Py.newline (fst (Posix.escape s)) = Py.contains Py.newline s
  /\ Py.contains Py.newline (Posix.quote s) = Py.contains Py.newline s
  /\ Py.contains Py.newline (fst (Posix.quote_info s))
     = Py.contains Py.newline s.
Proof.
  assert (Hrepl : Py.contains Py.newline
                    (Py.replace Py.squote Posix.squote_idiom s)
                  = Py.contains Py.newline s)
    by (apply contains_replace; [discriminate | reflexivity]).
  unfold Posix.quote, Posix.quote_info.
  destruct (Py.re_search Posix.bad_char s) eqn:Hbad.
  - rewrite (escape_bad s Hbad). simpl.
    rewrite contains_app, Hrepl. simpl. now rewrite orb_false_r.
  - now rewrite (escape_plain s Hbad).
Qed.

Section WritingStrings.
Context {py : Py.Python} `{Ext : Externals}.

(** X14.  A newline in a string or in a shell literal makes [write] raise
    before it has written anything, with each of the quoting functions
    that the callers pass; the text of a literal is not looked at, and is
    written with its newline. *)
Theorem write_newline (s : string) (syntax : Syntax)
    (shell_quote : Writer.quoter) (stream : string) :
  Py.contains Py.newline s = true ->
  shell_quote ∈ [None; Some Posix.quote_info; Some Posix.escape] ->
  Writer.write (Str s) syntax shell_quote stream
    = (Raise IllegalNewline, stream)
  /\ Writer.write (ShellLiteral s) syntax shell_quote stream
     = (Raise IllegalNewline, stream)
  /\ Writer.write (Literal s) syntax shell_quote stream
     = (Ok true, stream +:+ s).
Proof.
  intros Hnl Hq.
  destruct (escape_newline s) as (Hesc & _ & Hinfo).
  assert (Hraise : forall s', Py.contains Py.newline s' = true ->
                     Writer.escape_str s' syntax = Raise IllegalNewline).
  { intros s' H. unfold Writer.escape_str. now rewrite H. }
  split; [|split]; [| |reflexivity].
  - unfold Writer.write. simpl.
    assert (Hpair : forall q : string -> string * bool,
               Py.contains Py.newline (fst (q s)) = true ->
               (let '(s', escaped) :=
                  if bool_decide (syntax = shell) then q s else (s, false) in
                bind (lift (Writer.escape_str s' syntax))
                  (fun e => Writer.write_literal e;; mret escaped)) stream
               = (Raise IllegalNewline, stream)).
    { intros q Hqs. destruct (bool_decide (syntax = shell)).
      - destruct (q s) as [s' escaped]. simpl in Hqs.
        unfold bind, lift. now rewrite (Hraise s' Hqs).
      - unfold bind, lift. now rewrite (Hraise s Hnl). }
    apply elem_of_cons in Hq as [-> | Hq].
    { unfold bind, lift. now rewrite (Hraise s Hnl). }
    apply elem_of_cons in Hq as [-> | Hq].
    { apply Hpair. now rewrite Hinfo. }
    apply list_elem_of_singleton in Hq as ->.
    apply Hpair. now rewrite Hesc.
  - unfold Writer.write. simpl. unfold bind, lift.
    now rewrite (Hraise s Hnl).
Qed.

Lemma write_str_shell (s : string) (stream : string) :
  Py.contains Py.newline s = false ->
  Writer.write (Str s) shell (Some Posix.quote_info) stream
  = (Ok (snd (Posix.quote_info s)),
     stream +:+ Py.replace "$" "$$" (Posix.quote s)).
Proof.
  intros Hnl. destruct (escape_newline s) as (_ & Hquote & _).
  unfold Writer.write. simpl.
  assert (Hq : Posix.quote_info s = (Posix.quote s, snd (Posix.quote_info s))).
  { unfold Posix.quote, Posix.quote_info. now destruct (Posix.escape s). }
  rewrite Hq. unfold bind, lift, Writer.escape_str.
  rewrite Hquote, Hnl. reflexivity.
Qed.

Lemma write_each_rest (args : list string) :
  forall stream : string,
    Forall (fun a => Py.contains Py.newline a = false) args ->
    for_each
      (Iterutils.tween_from false (map Str args) (Literal " ") None None)
      (fun i => Writer.write i shell (Some Posix.quote_info);; mret tt) stream
    = (Ok tt,
       stream
       +:+ Py.replace "$" "$$"
             (match args with
              | [] => ""
              | _ => String " " (Posix.join args)
              end)).
Proof.
  induction args as [|a args IH]; intros stream Hargs.
  - simpl. now rewrite str_app_nil_r.
  - apply Forall_cons in Hargs as [Ha Hargs].
    change (Iterutils.tween_from false (map Str (a :: args)) (Literal " ")
              None None)
      with (Literal " " :: Str a
            :: Iterutils.tween_from false (map Str args) (@Literal Path " ")
                 None None).
    rewrite (for_each_cons_ok _ _ _ _ (stream +:+ " ")) by reflexivity.
    erewrite for_each_cons_ok
      by (unfold mbind, M_bind; erewrite bind_ok
            by (apply write_str_shell; exact Ha); reflexivity).
    rewrite (IH _ Hargs). f_equal.
    rewrite !str_app_assoc. f_equal.
    destruct args as [|b args].
    + simpl. now rewrite str_app_nil_r.
    + change (Posix.join (a :: b :: args))
        with (Posix.quote a +:+ String " " (Posix.join (b :: args))).
      change (String " " (Posix.quote a +:+ String " " (Posix.join (b :: args))))
        with (" " +:+ Posix.quote a +:+ String " " (Posix.join (b :: args))).
      rewrite !replace_app. reflexivity.
Qed.

(** X15.  An argument list of strings without newlines is written in
    shell position as [join] of [shell/posix.py] gives it, with every
    sigil doubled:
    each argument quoted where the shell needs it, one space between two
    arguments. *)
Theorem write_shell_args (args : list string) (stream : string) :
  Forall (fun a => Py.contains Py.newline a = false) args ->
  Writer.write_shell (Args (map Str args)) shell stream
  = (Ok tt, stream +:+ Py.replace "$" "$$" (Posix.join args)).
Proof.
  intros Hargs. unfold Writer.write_shell, Writer.write_each, Iterutils.tween.
  destruct args as [|a args]; [simpl; now rewrite str_app_nil_r|].
  apply Forall_cons in Hargs as [Ha Hargs].
  change (Iterutils.tween_from true (map Str (a :: args)) (Literal " ")
            None None)
    with (Str a
          :: Iterutils.tween_from false (map Str args) (@Literal Path " ")
               None None).
  erewrite for_each_cons_ok
    by (unfold mbind, M_bind; erewrite bind_ok
          by (apply write_str_shell; exact Ha); reflexivity).
  rewrite (write_each_rest args _ Hargs). f_equal.
  rewrite str_app_assoc. f_equal.
  destruct args as [|b args].
  - simpl. now rewrite str_app_nil_r.
  - change (Posix.join (a :: b :: args))
      with (Posix.quote a +:+ String " " (Posix.join (b :: args))).
    now rewrite replace_app.
Qed.

End WritingStrings.

Section WritingStringsEvaluated.
#[local] Existing Instance Py.python3.
#[local] Existing Instance Dotted.externals.

Lemma write_newline_witness :
  Writer.write (Str ("a" +:+ nl +:+ "b")) shell (Some Posix.quote_info) "x = "
    = (Raise IllegalNewline, "x = ")
  /\ Writer.write (ShellLiteral ("a" +:+ nl +:+ "b")) shell
       (Some Posix.quote_info) "x = "
     = (Raise IllegalNewline, "x = ")
  /\ Writer.write (Literal ("a" +:+ nl +:+ "b")) shell
       (Some Posix.quote_info) "x = "
     = (Ok true, "x = " +:+ ("a" +:+ nl +:+ "b")).
Proof.
  apply (write_newline ("a" +:+ nl +:+ "b")); [reflexivity|].
  apply elem_of_cons. right. apply elem_of_cons. now left.
Defined.


Lemma write_shell_args_witness :
  Writer.write_shell (Args (map Str ["echo"; "$HOME"; "a b"])) shell "  command = "
  = (Ok tt, "  command = echo '$$HOME' 'a b'").
Proof.
  apply (write_shell_args ["echo"; "$HOME"; "a b"]).
  repeat constructor.
Defined.

End WritingStringsEvaluated.

(* ===================================================================== *)
(** * The calls on a build file, one by one *)
(* ===================================================================== *)

Section CallsOneByOne.
Context {py : Py.Python} `{Ext : Externals}.
Import NinjaFile.

Lemma has_variable_elem_of (name : var_arg) (self : t) :
  has_variable name self = true <-> var name ∈ _var_table self.
Proof. unfold has_variable. apply bool_decide_eq_true. Qed.

(** What [variable] does to a file that has not got the name. *)
Lemma variable_new (self : t) (name : var_arg) (value : Value Path)
    (section : Section_) (exist_ok : bool) :
  has_variable name self = false ->
  variable name value section exist_ok self
  = (Ok (var name),
     set_variables
       (fun s => if decide (s = section)
                 then _variables self s ++ [(var name, value)]
                 else _variables self s)
       (set_var_table ({[var name]} ∪ _var_table self) self)).
Proof.
  intros Hnew. unfold variable, bind, gets.
  change (has_variable (ByVariable (var name)) self)
    with (has_variable name self).
  now rewrite Hnew.
Qed.

(** X16.  [variable] for a name that is not declared succeeds, whatever
    [exist_ok] is: the variable is in the table afterwards, its value is
    the last one of its section, and nothing else changes.  Later calls
    with [exist_ok=True] return the same variable and keep this first
    value. *)
Theorem variable_declares (self : t) (name : var_arg) (value : Value Path)
    (section : Section_) (exist_ok : bool) :
  has_variable name self = false ->
  exists after,
    variable name value section exist_ok self = (Ok (var name), after)
    /\ has_variable name after = true
    /\ _variables after section
       = _variables self section ++ [(var name, value)]
    /\ (forall s, s <> section -> _variables after s = _variables self s)
    /\ _var_table after = {[var name]} ∪ _var_table self
    /\ after = set_variables (_variables after)
                 (set_var_table (_var_table after) self)
    /\ (forall value' section',
          variable name value' section' true after = (Ok (var name), after)).
Proof.
  intros Hnew. eexists. split; [now apply variable_new|].
  assert (Hdecl : has_variable name
                    (set_variables
                       (fun s => if decide (s = section)
                                 then _variables self s ++ [(var name, value)]
                                 else _variables self s)
                       (set_var_table ({[var name]} ∪ _var_table self) self))
                  = true).
  { apply has_variable_elem_of. destruct self; simpl.
    apply elem_of_union. left. now apply elem_of_singleton. }
  split; [exact Hdecl|]. split; [|split; [|split; [|split]]].
  - destruct self; simpl. now rewrite decide_True.
  - intros s Hs. destruct self; simpl. now rewrite decide_False.
  - now destruct self.
  - now destruct self.
  - intros value' section'. now rewrite (variable_declared _ _ _ _ _ Hdecl).
Qed.

(** The loop of [build] over the outputs: it ends well or with the
    error of the first output that is registered, by an edge before or
    by the list itself, and registers outputs of the list only. *)
Lemma build_output_loop (outs : list (Target Path)) :
  forall self : t,
    exists r registered,
      for_each outs build_output self
      = (r, set_build_outputs registered self)
      /\ (r = Ok tt
          \/ exists before dup rest,
               outs = before ++ dup :: rest
               /\ (dup ∈ before \/ dup ∈ _build_outputs self)
               /\ r = Raise (duplicate_error dup))
      /\ (forall o, o ∈ _build_outputs self -> o ∈ registered)
      /\ (r = Ok tt ->
          NoDup outs
          /\ (forall o, o ∈ outs -> o ∉ _build_outputs self)
          /\ registered = list_to_set outs ∪ _build_outputs self).
Proof.
  induction outs as [|i outs IH]; intros self.
  - exists (Ok tt), (_build_outputs self). split; [|split; [|split]].
    + simpl. now rewrite set_build_outputs_same.
    + now left.
    + auto.
    + intros _. split; [constructor|]. split.
      * intros o Ho. inversion Ho.
      * simpl. now rewrite (left_id_L ∅ (∪)).
  - destruct (decide (i ∈ _build_outputs self)) as [Hi|Hi].
    + exists (Raise (duplicate_error i)), (_build_outputs self).
      split; [|split; [|split]].
      * rewrite (for_each_cons_raise _ _ _ _ _ _
                   (build_output_registered i self Hi)).
        now rewrite set_build_outputs_same.
      * right. exists [], i, outs. split; [reflexivity|]. split; [now right|].
        reflexivity.
      * auto.
      * discriminate.
    + set (mid := set_build_outputs ({[i]} ∪ _build_outputs self) self).
      assert (Hmid : _build_outputs mid = {[i]} ∪ _build_outputs self)
        by now destruct self.
      destruct (IH mid) as (r & registered & Hrun & Hr & Hreg & Hok).
      exists r, registered. split; [|split; [|split]].
      * rewrite (for_each_cons_ok _ _ _ _ _ (build_output_fresh i self Hi)).
        fold mid. rewrite Hrun. unfold mid.
        now rewrite set_build_outputs_twice.
      * destruct Hr as [-> | (before & dup & rest & -> & Hdup & ->)];
          [now left | right].
        exists (i :: before), dup, rest. split; [reflexivity|].
        split; [|reflexivity]. rewrite Hmid in Hdup.
        destruct Hdup as [Hd|[Hd%elem_of_singleton|Hd]%elem_of_union].
        -- left. apply elem_of_cons. now right.
        -- left. apply elem_of_cons. now left.
        -- now right.
      * intros o Ho. apply Hreg. rewrite Hmid. apply elem_of_union.
        now right.
      * intros Hrok. destruct (Hok Hrok) as (Hnd & Hfresh & Heq).
        rewrite Hmid in Hfresh, Heq. split; [|split].
        -- constructor; [|exact Hnd]. intros Hin.
           apply (Hfresh i Hin), elem_of_union. left.
           now apply elem_of_singleton.
        -- intros o [-> | Ho]%elem_of_cons; [exact Hi|].
           intros Hreg'. apply (Hfresh o Ho), elem_of_union. now right.
        -- rewrite Heq, list_to_set_cons.
           now rewrite (assoc_L (∪)), (comm_L (∪) {[i]}).
Qed.

Lemma union_cons_swap `{Countable A} (i : A) (l : list A) (X : gset A) :
  list_to_set l ∪ ({[i]} ∪ X) = list_to_set (i :: l) ∪ X.
Proof.
  rewrite list_to_set_cons. now rewrite (assoc_L (∪)), (comm_L (∪) {[i]}).
Qed.

Lemma build_output_all_new (outs : list (Target Path)) :
  forall self : t,
    NoDup outs -> (forall o, o ∈ outs -> o ∉ _build_outputs self) ->
    for_each outs build_output self
    = (Ok tt,
       set_build_outputs (list_to_set outs ∪ _build_outputs self) self).
Proof.
  induction outs as [|i outs IH]; intros self Hnd Hfresh.
  - simpl. now rewrite (left_id_L ∅ (∪)), set_build_outputs_same.
  - apply NoDup_cons in Hnd as [Hi Hnd].
    assert (Hnew : i ∉ _build_outputs self) by (apply Hfresh; now left).
    rewrite (for_each_cons_ok _ _ _ _ _ (build_output_fresh i self Hnew)).
    set (mid := set_build_outputs ({[i]} ∪ _build_outputs self) self).
    assert (Hmid : _build_outputs mid = {[i]} ∪ _build_outputs self)
      by now destruct self.
    rewrite IH.
    + unfold mid at 2. rewrite set_build_outputs_twice, Hmid.
      now rewrite union_cons_swap.
    + exact Hnd.
    + intros o Ho. rewrite Hmid.
      intros [->%elem_of_singleton | Hreg]%elem_of_union; [contradiction|].
      apply (Hfresh o); [now right | exact Hreg].
Qed.

(** X17.  What [build] does.  With a rule that is neither [phony] nor
    declared it raises the unknown-rule error and changes nothing.  With
    a known rule it succeeds exactly when its outputs are pairwise
    different and none of them is registered: then the outputs are
    registered and the edge is the last one of the file.  Otherwise it
    raises for the first output that is registered or that the list
    repeats, and appends no edge: the duplicate-output error when this
    output is a name, and for a path what the making of the message
    gives, the same error or the exception of the formatting. *)
Theorem build_outcome (self : t)
    (output : Iterutils.arg (Target Path)) (rule : string)
    (inputs implicit order_only : Iterutils.arg (Thing Path))
    (variables : option (list (var_arg * Value Path))) :
  let outs := Iterutils.listify output in
  let run := build output rule inputs implicit order_only variables self in
  (rule <> "phony" -> has_rule rule self = false ->
   run = (Raise (UnknownRule rule), self))
  /\ (rule = "phony" \/ has_rule rule self = true ->
      (fst run = Ok tt
       <-> NoDup outs /\ forall o, o ∈ outs -> has_build o self = false)
      /\ (fst run = Ok tt
          \/ exists before dup rest,
               outs = before ++ dup :: rest
               /\ (dup ∈ before \/ has_build dup self = true)
               /\ fst run
                  = Raise match format_target dup with
                          | Ok _ => BuildExists
                          | Raise e => e
                          end
               /\ (forall name, dup = Named name ->
                                fst run = Raise BuildExists))
      /\ (fst run = Ok tt ->
          _build_outputs (snd run) = list_to_set outs ∪ _build_outputs self
          /\ exists edge,
               _builds (snd run) = _builds self ++ [edge]
               /\ Build.outputs edge = outs
               /\ Build.rule edge = rule
               /\ Build.inputs edge = Iterutils.listify inputs
               /\ Build.implicit edge = Iterutils.listify implicit
               /\ Build.order_only edge = Iterutils.listify order_only)
      /\ (fst run <> Ok tt -> _builds (snd run) = _builds self)).
Proof.
  intros outs run. split.
  - intros Hphony Hrule. unfold run, build.
    erewrite bind_ok by reflexivity. rewrite Hrule.
    apply String.eqb_neq in Hphony. now rewrite Hphony.
  - intros Hrule.
    assert (Hcheck : negb (String.eqb rule "phony")
                     && negb (has_rule rule self) = false).
    { destruct Hrule as [-> | ->]; [reflexivity | apply andb_false_r]. }
    destruct (build_output_loop outs self)
      as (r & registered & Hloop & Hr & Hreg & Hok).
    assert (Hrun : run
                   = match r with
                     | Ok _ =>
                         (Ok tt,
                          set_builds
                            (_builds (set_build_outputs registered self)
                             ++ [Build.mk outs rule
                                   (Iterutils.listify inputs)
                                   (Iterutils.listify implicit)
                                   (Iterutils.listify order_only)
                                   (fold_left
                                      (fun d '(k, v) => dict_set (var k) v d)
                                      (stdpp.option.default [] variables)
                                      [])])
                            (set_build_outputs registered self))
                     | Raise e => (Raise e, set_build_outputs registered self)
                     end).
    { unfold run, build. erewrite bind_ok by reflexivity. rewrite Hcheck.
      unfold mbind, M_bind, bind. fold outs. rewrite Hloop.
      now destruct r as [[]|e]. }
    split; [|split; [|split]].
    + split.
      * intros Hfst. rewrite Hrun in Hfst.
        destruct Hr as [-> | (? & ? & ? & _ & _ & ->)]; [|discriminate Hfst].
        destruct (Hok eq_refl) as (Hnd & Hfresh & _).
        split; [exact Hnd|]. intros o Ho. unfold has_build.
        apply bool_decide_eq_false_2. now apply Hfresh.
      * intros [Hnd Hfresh]. unfold run, build.
        erewrite bind_ok by reflexivity. rewrite Hcheck.
        unfold mbind, M_bind, bind. fold outs.
        rewrite (build_output_all_new outs self Hnd); [reflexivity|].
        intros o Ho Hreg'. specialize (Hfresh o Ho).
        unfold has_build in Hfresh.
        now apply bool_decide_eq_false in Hfresh.
    + rewrite Hrun.
      destruct Hr as [-> | (before & dup & rest & Hsplit & Hdup & ->)];
        [now left | right].
      exists before, dup, rest. split; [exact Hsplit|]. split; [|split].
      * destruct Hdup as [Hd | Hd]; [now left | right].
        unfold has_build. now apply bool_decide_eq_true_2.
      * reflexivity.
      * now intros name ->.
    + intros Hfst. rewrite Hrun in Hfst |- *.
      destruct Hr as [-> | (? & ? & ? & _ & _ & ->)]; [|discriminate Hfst].
      destruct (Hok eq_refl) as (_ & _ & ->). split; [now destruct self|].
      eexists. split; [now destruct self|]. repeat split.
    + intros Hfst. rewrite Hrun in Hfst |- *.
      destruct Hr as [-> | (? & ? & ? & _ & _ & ->)];
        [contradiction | now destruct self].
Qed.

(** ** Rules *)

Lemma dict_set_new {K V} `{EqDecision K} (k : K) (v : V) (d : list (K * V)) :
  dict_has k d = false -> dict_set k v d = d ++ [(k, v)].
Proof.
  induction d as [|[k' v'] d IH]; simpl; [reflexivity|].
  intros [Hk Hd]%orb_false_elim. apply bool_decide_eq_false in Hk.
  rewrite decide_False by exact Hk. now rewrite (IH Hd).
Qed.

Lemma dict_has_elem_of {K V} `{EqDecision K} (k : K) (d : list (K * V)) :
  dict_has k d = true <-> k ∈ map fst d.
Proof.
  induction d as [|[k' v'] d IH]; simpl.
  - split; [discriminate | intros H'; inversion H'].
  - rewrite orb_true_iff, IH, elem_of_cons, bool_decide_eq_true. reflexivity.
Qed.

(** [cmd_var] never raises. *)
Lemma cmd_var_ok (command_var : string) (command : list string) (self : t) :
  cmd_var command_var command self
  = (Ok (var (ByName command_var)),
     snd (cmd_var command_var command self)).
Proof.
  unfold cmd_var. destruct (has_variable (ByName command_var) self) eqn:Hv.
  - now rewrite (variable_declared _ _ _ _ _ Hv).
  - now rewrite (variable_new _ _ _ _ _ Hv).
Qed.

Section Converting.
(** A property of files that [cmd_var] keeps. *)
Variable Q : t -> Prop.
Hypothesis Q_cmd_var : forall s command_var command,
  Q s -> Q (snd (cmd_var command_var command s)).

Lemma Command_convert_args_run (args : list (Thing Path)) :
  forall self, Q self ->
    exists after,
      Commands.Command_convert_args args cmd_var self
      = (Ok (map converted_thing args), after)
      /\ Q after.
Proof.
  induction args as [|a args IH]; intros self HQ.
  - exists self. now split.
  - assert (Hrest : forall s, Q s -> forall a' : Thing Path,
              exists after,
                bind (Commands.Command_convert_args args cmd_var)
                  (fun rest' => mret (a' :: rest')) s
                = (Ok (a' :: map converted_thing args), after)
                /\ Q after).
    { intros s Hs a'. destruct (IH s Hs) as (after & Hrun & Hafter).
      exists after. split; [|exact Hafter].
      now rewrite (bind_ok _ _ _ _ _ Hrun). }
    destruct a as [x|x|x|bits|p|v|cv c|]; simpl; try (apply Hrest; exact HQ).
    rewrite (bind_ok _ _ _ _ _ (cmd_var_ok cv c self)).
    apply Hrest. now apply Q_cmd_var.
Qed.

Lemma convert_run (line : Line Path) (self : t) :
  Q self ->
  exists after,
    Commands.convert cmd_var line self = (Ok (converted_line line), after)
    /\ Q after.
Proof.
  intros HQ. destruct line as [l|l|x]; simpl.
  - destruct (Command_convert_args_run l self HQ) as (after & Hrun & Hafter).
    exists after. now rewrite (bind_ok _ _ _ _ _ Hrun).
  - destruct (Command_convert_args_run l self HQ) as (after & Hrun & Hafter).
    exists after. now rewrite (bind_ok _ _ _ _ _ Hrun).
  - exists self. now split.
Qed.

Lemma converted_line_kind (line : Line Path) :
  Commands.is_shell_list (converted_line line) = Commands.is_shell_list line
  /\ Commands.isiterable (converted_line line) = Commands.isiterable line.
Proof. now destruct line. Qed.

Lemma convert_each_run (lines : list (Line Path)) :
  forall self, Q self ->
    exists after,
      Commands.convert_each cmd_var lines self
      = (Ok (map converted_line lines), after)
      /\ Q after.
Proof.
  induction lines as [|line lines IH]; intros self HQ.
  - exists self. now split.
  - destruct (convert_run line self HQ) as (mid & Hline & Hmid).
    destruct (IH mid Hmid) as (after & Hrun & Hafter).
    exists after. split; [|exact Hafter].
    simpl. rewrite (bind_ok _ _ _ _ _ Hline).
    now rewrite (bind_ok _ _ _ _ _ Hrun).
Qed.

Lemma convert_args_run (c : Commands.t Path) (self : t) :
  Q self ->
  exists c' after,
    Commands.convert_args c cmd_var self = (Ok c', after)
    /\ Q after
    /\ Commands.needs_shell c' = Commands.needs_shell c
    /\ Commands.environ c' = Commands.environ c
    /\ length (Commands.commands c') = length (Commands.commands c)
    /\ c' = Commands.mk (map converted_line (Commands.commands c))
              (Commands.environ c).
Proof.
  intros HQ.
  destruct (convert_each_run (Commands.commands c) self HQ)
    as (after & Hrun & Hafter).
  exists (Commands.mk (map converted_line (Commands.commands c))
            (Commands.environ c)), after.
  split; [|split; [exact Hafter|split; [|split; [reflexivity|split]]]].
  - unfold Commands.convert_args. now rewrite (bind_ok _ _ _ _ _ Hrun).
  - unfold Commands.needs_shell. simpl. rewrite length_map.
    destruct (Commands.commands c) as [|first rest]; [reflexivity|].
    simpl. now destruct (converted_line_kind first) as [-> ->].
  - simpl. apply length_map.
  - reflexivity.
Qed.

End Converting.

(** [variable] and [min_version] leave the rules, the edges, the outputs
    and the defaults alone. *)
Lemma variable_frame (self : t) (name : var_arg) (value : Value Path)
    (section : Section_) (exist_ok : bool) :
  let after := snd (variable name value section exist_ok self) in
  _rules after = _rules self /\ _builds after = _builds self
  /\ _build_outputs after = _build_outputs self
  /\ _defaults after = _defaults self
  /\ _min_version after = _min_version self.
Proof.
  destruct (has_variable name self) eqn:Hv.
  - rewrite (variable_declared _ _ _ _ _ Hv). now repeat split.
  - rewrite (variable_new _ _ _ _ _ Hv). now destruct self.
Qed.

Lemma min_version_frame (self : t) (version : string) :
  let after := snd (min_version version self) in
  min_version version self = (Ok tt, after)
  /\ _rules after = _rules self /\ _builds after = _builds self
  /\ _build_outputs after = _build_outputs self
  /\ _defaults after = _defaults self
  /\ _var_table after = _var_table self
  /\ _variables after = _variables self.
Proof.
  unfold min_version, modify. simpl. destruct self as [f m vt vs rs bs os ds].
  simpl. destruct m as [current|]; [|now repeat split].
  destruct (version_gt (Version version) current); now repeat split.
Qed.

(** [rule] after its command is converted: the test of the pool, of the
    name, and of the rules that are there. *)
Lemma rule_run (self : t) (name : string) (command : command_arg)
    (depfile deps : option (Thing Path)) (generator : bool)
    (pool : option string) (restat : bool)
    (c c' : Commands.t Path) (converted : t) (wrap : bool) :
  objectify command = Ok c ->
  Commands.convert_args c cmd_var self = (Ok c', converted) ->
  Commands.needs_shell c' = Ok wrap ->
  exists stored,
    (wrap = true -> stored = Cmds c')
    /\ (wrap = false ->
        exists first rest,
          Commands.commands c' = first :: rest /\ stored = Plain first)
    /\ let tail := fun s : t =>
         if Py.re_search (fun ch => negb (Py.word_char ch)) name
         then (Raise BadRuleName, s)
         else if has_rule name s then (Raise (RuleExists name), s)
         else (Ok tt,
               set_rules
                 (dict_set name
                    (Rule.mk stored depfile deps generator pool restat)
                    (_rules s)) s) in
       rule name command depfile deps generator pool restat self
       = match pool with
         | Some p =>
             if String.eqb p "console"
             then tail (snd (min_version "1.5" converted))
             else (Raise (UnknownPool p), converted)
         | None => tail converted
         end.
Proof.
  intros Hobj Hconv Hwrap.
  assert (Hfirst : exists first rest, Commands.commands c' = first :: rest).
  { unfold Commands.needs_shell in Hwrap.
    destruct (Commands.commands c') as [|first rest]; [discriminate|].
    now exists first, rest. }
  destruct Hfirst as (first & rest & Hfirst).
  exists (if wrap then Cmds c' else Plain first).
  split; [now intros ->|]. split; [intros ->; now exists first, rest|].
  intros tail. unfold rule.
  rewrite (bind_ok (lift (objectify command)) _ self self c)
    by (unfold lift; now rewrite Hobj).
  rewrite (bind_ok _ _ _ _ _ Hconv).
  rewrite (bind_ok (lift (Commands.needs_shell c')) _ converted converted wrap)
    by (unfold lift; now rewrite Hwrap).
  rewrite (bind_ok _ _ converted converted (if wrap then Cmds c' else Plain first))
    by (rewrite Hfirst; now destruct wrap).
  assert (Htail : forall s,
            (if Py.re_search (fun ch => negb (Py.word_char ch)) name
             then raise BadRuleName
             else
               bind (gets (has_rule name))
                 (fun found =>
                    if found then raise (RuleExists name)
                    else
                      modify
                        (fun self0 =>
                           set_rules
                             (dict_set name
                                (Rule.mk (if wrap then Cmds c' else Plain first)
                                   depfile deps generator pool restat)
                                (_rules self0)) self0))) s
            = tail s).
  { intros s0. unfold tail.
    destruct (Py.re_search _ name); [reflexivity|].
    unfold bind, gets. now destruct (has_rule name s0). }
  unfold mbind, M_bind. destruct pool as [p|].
  - destruct (String.eqb p "console").
    + destruct (min_version_frame converted "1.5") as (Hmin & _).
      rewrite (bind_ok _ _ _ _ _ Hmin). apply Htail.
    + reflexivity.
  - rewrite (bind_ok _ _ converted converted tt) by reflexivity. apply Htail.
Qed.

Lemma same_graph_cmd_var (self s : t) (command_var : string)
    (command : list string) :
  same_graph self s -> same_graph self (snd (cmd_var command_var command s)).
Proof.
  intros (Hr & Hb & Ho & Hd). unfold cmd_var.
  destruct (variable_frame s (ByName command_var)
              (Plain (Args (map Str command))) Section_command true)
    as (Hr' & Hb' & Ho' & Hd' & _).
  unfold same_graph. now rewrite Hr', Hb', Ho', Hd'.
Qed.

Lemma same_graph_min_version (self s : t) (version : string) :
  same_graph self s -> same_graph self (snd (min_version version s)).
Proof.
  intros (Hr & Hb & Ho & Hd).
  destruct (min_version_frame s version) as (_ & Hr' & Hb' & Ho' & Hd' & _).
  unfold same_graph. now rewrite Hr', Hb', Ho', Hd'.
Qed.

(** X18.  What [rule] does with a command of at least one line.  Its
    tests come in this order: a pool other than [console] is the
    unknown-pool error, a name with a character that [\w] does not match
    is the invalid-name error, a name that is declared is the
    already-exists error.  Otherwise the rule is the last one of the file
    and [has_rule] finds it.  Its command is the command that was given,
    with every tool in its argument lists replaced by the variable of the
    tool: the [Commands] object when a shell is needed, and the one
    command line when none is.  Whatever the outcome, the edges, the
    outputs and the defaults stay, and the rules stay when [rule]
    raises. *)
Theorem rule_outcome (self : t) (name : string) (command : command_arg)
    (depfile deps : option (Thing Path)) (generator : bool)
    (pool : option string) (restat : bool) (c : Commands.t Path) :
  objectify command = Ok c ->
  Commands.commands c <> [] ->
  let run := rule name command depfile deps generator pool restat self in
  let checks :=
    if Py.re_search (fun ch => negb (Py.word_char ch)) name
    then Raise BadRuleName
    else if has_rule name self then Raise (RuleExists name) else Ok tt in
  fst run = match pool with
            | None => checks
            | Some p =>
                if String.eqb p "console" then checks
                else Raise (UnknownPool p)
            end
  /\ _builds (snd run) = _builds self
  /\ _build_outputs (snd run) = _build_outputs self
  /\ _defaults (snd run) = _defaults self
  /\ (fst run <> Ok tt -> _rules (snd run) = _rules self)
  /\ (fst run = Ok tt ->
      has_rule name (snd run) = true
      /\ exists r,
           _rules (snd run) = _rules self ++ [(name, r)]
           /\ Rule.pool r = pool /\ Rule.depfile r = depfile
           /\ Rule.deps r = deps /\ Rule.generator r = generator
           /\ Rule.restat r = restat
           /\ (Commands.needs_shell c = Ok true ->
               Rule.command r
               = Cmds (Commands.mk
                         (map converted_line (Commands.commands c))
                         (Commands.environ c)))
           /\ (Commands.needs_shell c = Ok false ->
               exists first,
                 Commands.commands c = [first]
                 /\ Commands.environ c = []
                 /\ Rule.command r = Plain (converted_line first))).
Proof.
  intros Hobj Hne run checks.
  destruct (convert_args_run (same_graph self) (same_graph_cmd_var self) c self)
    as (c' & converted & Hconv & Hgraph & Hns & _ & _ & Hc');
    [now repeat split|].
  assert (Hwrap : exists wrap, Commands.needs_shell c = Ok wrap).
  { unfold Commands.needs_shell.
    destruct (Commands.commands c); [contradiction | eauto]. }
  destruct Hwrap as [wrap Hwrap]. rewrite Hwrap in Hns.
  destruct (rule_run self name command depfile deps generator pool restat
              c c' converted wrap Hobj Hconv Hns)
    as (stored & Hcmds & Hplain & Hrun).
  cbv zeta in Hrun. fold run in Hrun.
  assert (Hone : wrap = false ->
                 exists first, Commands.commands c = [first]
                               /\ Commands.environ c = []).
  { intros ->. unfold Commands.needs_shell in Hwrap.
    destruct (Commands.commands c) as [|first [|second rest]];
      [contradiction| |].
    - exists first. split; [reflexivity|].
      destruct (Commands.environ c); [reflexivity | discriminate Hwrap].
    - simpl in Hwrap. rewrite orb_true_r in Hwrap. discriminate Hwrap. }
  assert (Htail : forall s, same_graph self s ->
            let out :=
              if Py.re_search (fun ch => negb (Py.word_char ch)) name
              then (Raise BadRuleName, s)
              else if has_rule name s then (Raise (RuleExists name), s)
              else (Ok tt,
                    set_rules
                      (dict_set name
                         (Rule.mk stored depfile deps generator pool restat)
                         (_rules s)) s) in
            fst out = checks
            /\ _builds (snd out) = _builds self
            /\ _build_outputs (snd out) = _build_outputs self
            /\ _defaults (snd out) = _defaults self
            /\ (fst out <> Ok tt -> _rules (snd out) = _rules self)
            /\ (fst out = Ok tt ->
                has_rule name (snd out) = true
                /\ _rules (snd out)
                   = _rules self
                     ++ [(name,
                          Rule.mk stored depfile deps generator pool restat)])).
  { intros s0 (Hr & Hb & Ho & Hd). unfold checks, has_rule. rewrite Hr.
    destruct (Py.re_search _ name); [now repeat split|].
    destruct (dict_has name (_rules self)) eqn:Hhas; [now repeat split|].
    simpl. rewrite (dict_set_new _ _ _ Hhas).
    split; [reflexivity|]. destruct s0; simpl in *.
    repeat split; try assumption; try congruence.
    apply dict_has_elem_of. rewrite map_app. apply elem_of_app. right.
    now left. }
  assert (Hshape : forall r, r = Rule.mk stored depfile deps generator pool restat ->
            Rule.pool r = pool /\ Rule.depfile r = depfile
            /\ Rule.deps r = deps /\ Rule.generator r = generator
            /\ Rule.restat r = restat
            /\ (Ok wrap = Ok true ->
                Rule.command r
                = Cmds (Commands.mk
                          (map converted_line (Commands.commands c))
                          (Commands.environ c)))
            /\ (Ok wrap = Ok false ->
                exists first,
                  Commands.commands c = [first]
                  /\ Commands.environ c = []
                  /\ Rule.command r = Plain (converted_line first))).
  { intros r ->. simpl.
    split; [reflexivity|]. split; [reflexivity|]. split; [reflexivity|].
    split; [reflexivity|]. split; [reflexivity|]. split.
    - intros [= ->]. rewrite (Hcmds eq_refl). now rewrite Hc'.
    - intros [= ->]. destruct (Hone eq_refl) as (first & Hfirst & Henv).
      exists first. split; [exact Hfirst|]. split; [exact Henv|].
      destruct (Hplain eq_refl) as (first' & rest' & Hcommands & ->).
      rewrite Hc', Hfirst in Hcommands. simpl in Hcommands.
      now injection Hcommands as <- _. }
  assert (Hfinish : forall s, same_graph self s ->
            run = (if Py.re_search (fun ch => negb (Py.word_char ch)) name
                   then (Raise BadRuleName, s)
                   else if has_rule name s then (Raise (RuleExists name), s)
                   else (Ok tt,
                         set_rules
                           (dict_set name
                              (Rule.mk stored depfile deps generator pool restat)
                              (_rules s)) s)) ->
            fst run = checks
            /\ _builds (snd run) = _builds self
            /\ _build_outputs (snd run) = _build_outputs self
            /\ _defaults (snd run) = _defaults self
            /\ (fst run <> Ok tt -> _rules (snd run) = _rules self)
            /\ (fst run = Ok tt ->
                has_rule name (snd run) = true
                /\ exists r,
                     _rules (snd run) = _rules self ++ [(name, r)]
                     /\ Rule.pool r = pool /\ Rule.depfile r = depfile
                     /\ Rule.deps r = deps /\ Rule.generator r = generator
                     /\ Rule.restat r = restat
                     /\ (Ok wrap = Ok true ->
                         Rule.command r
                         = Cmds (Commands.mk
                                   (map converted_line (Commands.commands c))
                                   (Commands.environ c)))
                     /\ (Ok wrap = Ok false ->
                         exists first,
                           Commands.commands c = [first]
                           /\ Commands.environ c = []
                           /\ Rule.command r
                              = Plain (converted_line first)))).
  { intros s0 Hs0 ->. destruct (Htail s0 Hs0) as (H1 & H2 & H3 & H4 & H5 & H6).
    split; [exact H1|]. split; [exact H2|]. split; [exact H3|].
    split; [exact H4|]. split; [exact H5|].
    intros Hok. destruct (H6 Hok) as [Hhas Hrules].
    split; [exact Hhas|]. eexists. split; [exact Hrules|].
    now apply Hshape. }
  rewrite Hwrap.
  destruct pool as [p|].
  - destruct (String.eqb p "console") eqn:Hp.
    + apply (Hfinish _ (same_graph_min_version _ _ "1.5" Hgraph) Hrun).
    + rewrite Hrun. destruct Hgraph as (Hr & Hb & Ho & Hd). simpl.
      split; [reflexivity|]. split; [exact Hb|]. split; [exact Ho|].
      split; [exact Hd|]. split; [intros _; exact Hr | discriminate].
  - apply (Hfinish _ Hgraph Hrun).
Qed.

(** ** Every call is made of a few changes

    A property of files holds after every call when these changes keep
    it: a new watermark, a new variable, a new rule, more registered
    outputs, a new edge with its outputs, and more defaults. *)
Section Preserved.
Variable Q : t -> Prop.

Hypothesis Q_min_version : forall s version,
  Q s -> Q (snd (min_version version s)).

Hypothesis Q_variable : forall s name value section,
  has_variable name s = false ->
  Q s ->
  Q (set_variables
       (fun x => if decide (x = section)
                 then _variables s x ++ [(var name, value)]
                 else _variables s x)
       (set_var_table ({[var name]} ∪ _var_table s) s)).

Hypothesis Q_rule : forall s name r,
  has_rule name s = false ->
  Py.re_search (fun ch => negb (Py.word_char ch)) name = false ->
  Rule.pool r = None
  \/ (Rule.pool r = Some "console"
      /\ exists s', s = snd (min_version "1.5" s')) ->
  Q s ->
  Q (set_rules (_rules s ++ [(name, r)]) s).

Hypothesis Q_outputs : forall s registered,
  (forall o, o ∈ _build_outputs s -> o ∈ registered) ->
  Q s -> Q (set_build_outputs registered s).

Hypothesis Q_edge : forall s edge,
  NoDup (Build.outputs edge) ->
  (forall o, o ∈ Build.outputs edge -> o ∉ _build_outputs s) ->
  Build.rule edge = "phony" \/ has_rule (Build.rule edge) s = true ->
  Q s ->
  Q (set_builds (_builds s ++ [edge])
       (set_build_outputs
          (list_to_set (Build.outputs edge) ∪ _build_outputs s) s)).

Hypothesis Q_default : forall s paths,
  Q s -> Q (set_defaults (_defaults s ++ paths) s).

Lemma variable_preserves (s : t) (name : var_arg) (value : Value Path)
    (section : Section_) (exist_ok : bool) :
  Q s -> Q (snd (variable name value section exist_ok s)).
Proof.
  intros HQ. destruct (has_variable name s) eqn:Hv.
  - now rewrite (variable_declared _ _ _ _ _ Hv).
  - rewrite (variable_new _ _ _ _ _ Hv). now apply Q_variable.
Qed.

Lemma cmd_var_preserves (s : t) (command_var : string)
    (command : list string) :
  Q s -> Q (snd (cmd_var command_var command s)).
Proof. apply variable_preserves. Qed.

Lemma rule_preserves (s : t) (name : string) (command : command_arg)
    (depfile deps : option (Thing Path)) (generator : bool)
    (pool : option string) (restat : bool) :
  Q s -> Q (snd (rule name command depfile deps generator pool restat s)).
Proof.
  intros HQ. destruct (objectify command) as [c|e] eqn:Hobj.
  2:{ unfold rule.
      rewrite (bind_raise (lift (objectify command)) _ s s e)
        by (unfold lift; now rewrite Hobj).
      exact HQ. }
  destruct (convert_args_run Q cmd_var_preserves c s HQ)
    as (c' & converted & Hconv & Hconverted & _).
  destruct (Commands.needs_shell c') as [wrap|e] eqn:Hwrap.
  2:{ unfold rule.
      rewrite (bind_ok (lift (objectify command)) _ s s c)
        by (unfold lift; now rewrite Hobj).
      rewrite (bind_ok _ _ _ _ _ Hconv).
      rewrite (bind_raise (lift (Commands.needs_shell c')) _
                 converted converted e)
        by (unfold lift; now rewrite Hwrap).
      exact Hconverted. }
  destruct (rule_run s name command depfile deps generator pool restat
              c c' converted wrap Hobj Hconv Hwrap)
    as (stored & _ & _ & Hrun).
  cbv zeta in Hrun. rewrite Hrun.
  assert (Htail : forall s0,
            Q s0 ->
            pool = None
            \/ (pool = Some "console"
                /\ exists s', s0 = snd (min_version "1.5" s')) ->
            Q (snd (if Py.re_search (fun ch => negb (Py.word_char ch)) name
                    then (Raise BadRuleName, s0)
                    else if has_rule name s0
                         then (Raise (RuleExists name), s0)
                         else (Ok tt,
                               set_rules
                                 (dict_set name
                                    (Rule.mk stored depfile deps generator
                                       pool restat) (_rules s0)) s0)))).
  { intros s0 Hs0 Hpool.
    destruct (Py.re_search _ name) eqn:Hname; [exact Hs0|].
    destruct (has_rule name s0) eqn:Hhas; [exact Hs0|].
    simpl. unfold has_rule in Hhas. rewrite (dict_set_new _ _ _ Hhas).
    apply Q_rule; auto. }
  destruct pool as [p|].
  - destruct (String.eqb_spec p "console") as [-> | Hp].
    + apply Htail; [now apply Q_min_version|]. right. eauto.
    + exact Hconverted.
  - apply Htail; [exact Hconverted | now left].
Qed.

Lemma build_preserves (s : t) (output : Iterutils.arg (Target Path))
    (rule : string) (inputs implicit order_only : Iterutils.arg (Thing Path))
    (variables : option (list (var_arg * Value Path))) :
  Q s -> Q (snd (build output rule inputs implicit order_only variables s)).
Proof.
  intros HQ. unfold build. erewrite bind_ok by reflexivity.
  destruct (negb (String.eqb rule "phony") && negb (has_rule rule s))
    eqn:Hcheck; [exact HQ|].
  assert (Hrule : rule = "phony" \/ has_rule rule s = true).
  { apply andb_false_iff in Hcheck as [H1 | H1];
      apply negb_false_iff in H1; [left | now right].
    now apply String.eqb_eq. }
  destruct (build_output_loop (Iterutils.listify output) s)
    as (r & registered & Hloop & Hr & Hreg & Hok).
  unfold mbind, M_bind, bind. rewrite Hloop.
  destruct Hr as [-> | (? & ? & ? & _ & _ & ->)].
  - destruct (Hok eq_refl) as (Hnd & Hfresh & ->). simpl.
    match goal with
    | |- Q (set_builds (_ ++ [?e]) _) =>
        pose proof (Q_edge s e Hnd Hfresh Hrule HQ) as Hedge
    end.
    destruct s; exact Hedge.
  - simpl. now apply Q_outputs.
Qed.

Lemma perform_preserves (c : call) (s : t) : Q s -> Q (perform c s).
Proof.
  intros HQ. destruct c; simpl.
  - now apply Q_min_version.
  - now apply variable_preserves.
  - now apply cmd_var_preserves.
  - now apply rule_preserves.
  - now apply build_preserves.
  - now apply Q_default.
Qed.

Lemma reachable_preserves :
  (forall bfgfile, Q (init bfgfile)) ->
  forall s, reachable s -> Q s.
Proof.
  intros Hinit s Hs. induction Hs as [bfgfile | c s Hs IH].
  - apply Hinit.
  - now apply perform_preserves.
Qed.

End Preserved.

(** ** What every file keeps *)

Lemma perm_here {A} (e : A) (l r : list A) :
  (l ++ [e]) ++ r ≡ₚ e :: l ++ r.
Proof. rewrite <- app_assoc. simpl. symmetry. apply Permutation_middle. Qed.

Lemma perm_later {A} (e : A) (l r r' : list A) :
  r ≡ₚ e :: r' -> l ++ r ≡ₚ e :: l ++ r'.
Proof. intros ->. symmetry. apply Permutation_middle. Qed.

Lemma all_variables_new (s : t) (section : Section_)
    (entry : Variable_.t * Value Path) :
  all_variables
    (set_variables
       (fun x => if decide (x = section)
                 then _variables s x ++ [entry]
                 else _variables s x)
       (set_var_table ({[fst entry]} ∪ _var_table s) s))
  ≡ₚ entry :: all_variables s.
Proof.
  unfold all_variables. destruct s as [f m vt vs rs bs os ds]. simpl.
  destruct section; simpl;
    repeat first [ apply perm_here
                 | symmetry; apply Permutation_cons_append
                 | apply perm_later ].
Qed.

Lemma variables_agree_init (bfgfile : string) :
  variables_agree (init bfgfile).
Proof.
  split; [constructor|]. intros v. simpl. split; intros H; inversion H.
Qed.

(** X19.  In every file that calls make from a new one, the table of the
    variables and the sections agree: the names in the sections are
    different, and the table holds them and no other name. *)
Theorem variables_agree_reachable (self : t) :
  reachable self -> variables_agree self.
Proof.
  revert self. apply reachable_preserves.
  - intros s version Hs. destruct (min_version_frame s version)
      as (_ & _ & _ & _ & _ & Ht & Hv).
    unfold variables_agree, all_variables in *. now rewrite Ht, Hv.
  - intros s name value section Hnew [Hnd Htable].
    pose proof (all_variables_new s section (var name, value)) as Hperm.
    simpl in Hperm.
    assert (Hnames := Permutation_map fst Hperm). simpl in Hnames.
    assert (Hfresh : var name ∉ map fst (all_variables s)).
    { intros Hin. apply Htable, has_variable_elem_of in Hin. congruence. }
    split.
    + rewrite Hnames. now constructor.
    + intros v. rewrite Hnames, elem_of_cons, <- Htable.
      destruct s; simpl. rewrite elem_of_union, elem_of_singleton.
      reflexivity.
  - intros s name r _ _ _ Hs. now destruct s.
  - intros s registered _ Hs. now destruct s.
  - intros s edge _ _ _ Hs. now destruct s.
  - intros s paths Hs. now destruct s.
  - apply variables_agree_init.
Qed.

(** X20.  In every file that calls make from a new one, the rules have
    different names, every name has only characters that [\w] matches
    in the interpreter, and no rule has a pool other than the console. *)
Theorem rules_wellformed_reachable (self : t) :
  reachable self -> rules_wellformed self.
Proof.
  revert self. apply reachable_preserves.
  - intros s version Hs. destruct (min_version_frame s version)
      as (_ & Hr & _).
    unfold rules_wellformed in *. now rewrite Hr.
  - intros s name value section _ Hs. now destruct s.
  - intros s name r Hnew Hname Hpool [Hnd Hrules].
    destruct s as [f m vt vs rs bs os ds]. unfold rules_wellformed in *.
    simpl in *. split.
    + rewrite map_app. simpl. apply NoDup_app. split; [exact Hnd|].
      split; [|apply NoDup_singleton].
      intros x Hx ->%list_elem_of_singleton.
      apply dict_has_elem_of in Hx. unfold has_rule in Hnew. simpl in Hnew.
      congruence.
    + intros n r' [Hin | Hin%list_elem_of_singleton]%elem_of_app.
      * now apply Hrules.
      * injection Hin as -> ->. split; [exact Hname|].
        destruct Hpool as [Hp | [Hp _]]; auto.
  - intros s registered _ Hs. now destruct s.
  - intros s edge _ _ _ Hs. now destruct s.
  - intros s paths Hs. now destruct s.
  - intros bfgfile. split; [constructor|]. intros n r H. inversion H.
Qed.

Lemma dict_has_app {K V} `{EqDecision K} (k : K) (d d' : list (K * V)) :
  dict_has k (d ++ d') = dict_has k d || dict_has k d'.
Proof. unfold dict_has. apply existsb_app. Qed.

(** X21.  In every file that calls make from a new one, no output belongs
    to two edges or twice to one edge, every output of an edge is
    registered, and every edge has the phony rule or a declared rule. *)
Theorem edges_wellformed_reachable (self : t) :
  reachable self -> edges_wellformed self.
Proof.
  revert self. apply reachable_preserves.
  - intros s version Hs. destruct (min_version_frame s version)
      as (_ & Hr & Hb & Ho & _).
    unfold edges_wellformed, edge_outputs, has_build, has_rule in *.
    now rewrite Hr, Hb, Ho.
  - intros s name value section _ Hs. now destruct s.
  - intros s name r _ _ _ (Hnd & Hreg & Hrule).
    destruct s as [f m vt vs rs bs os ds].
    unfold edges_wellformed, edge_outputs, has_build, has_rule in *.
    simpl in *. split; [exact Hnd|]. split; [exact Hreg|].
    intros b Hb. destruct (Hrule b Hb) as [Hp | Hd]; [now left | right].
    rewrite dict_has_app, Hd. reflexivity.
  - intros s registered Hmore (Hnd & Hreg & Hrule).
    destruct s as [f m vt vs rs bs os ds].
    unfold edges_wellformed, edge_outputs, has_build, has_rule in *.
    simpl in *. split; [exact Hnd|]. split; [|exact Hrule].
    intros o Ho. apply bool_decide_eq_true, Hmore.
    exact (proj1 (bool_decide_eq_true _) (Hreg o Ho)).
  - intros s edge Hedge Hfresh Hknown (Hnd & Hreg & Hrule).
    destruct s as [f m vt vs rs bs os ds].
    unfold edges_wellformed, edge_outputs, has_build, has_rule in *.
    simpl in *. rewrite map_app, concat_app. simpl. rewrite app_nil_r.
    split; [|split].
    + apply NoDup_app. split; [exact Hnd|]. split; [|exact Hedge].
      intros o Ho Ho'. apply (Hfresh o Ho').
      exact (proj1 (bool_decide_eq_true _) (Hreg o Ho)).
    + intros o [Ho | Ho]%elem_of_app; apply bool_decide_eq_true;
        apply elem_of_union.
      * right. exact (proj1 (bool_decide_eq_true _) (Hreg o Ho)).
      * left. now apply elem_of_list_to_set.
    + intros b [Hb | ->%list_elem_of_singleton]%elem_of_app.
      * now apply Hrule.
      * exact Hknown.
  - intros s paths Hs. now destruct s.
  - intros bfgfile. split; [constructor|].
    split; intros x H; inversion H.
Qed.

End CallsOneByOne.






Section CallsEvaluated.
#[local] Existing Instance Py.python3.
#[local] Existing Instance Dotted.externals.
Import NinjaFile.

Lemma variable_declares_witness :
  exists after,
    variable (ByName "c++") (Plain (Args [Str "g++"])) Section_command false
      (init "build.bfg")
    = (Ok (Variable_.mk "c__"), after)
    /\ has_variable (ByName "c++") after = true.
Proof.
  destruct (variable_declares (init "build.bfg") (ByName "c++")
              (Plain (Args [Str "g++"])) Section_command false)
    as (after & Hrun & Hdecl & _); [reflexivity|].
  exists after. split; [exact Hrun | exact Hdecl].
Defined.

Lemma rule_outcome_witness :
  let run := rule "cc" (AsLines [Args [Tool "cc" ["gcc"]; Str "-c"]])
               None None false None false (init "build.bfg") in
  fst run = Ok tt
  /\ exists r,
       _rules (snd run) = [("cc", r)]
       /\ Rule.command r = Plain (Args [VarRef (Variable_.mk "cc"); Str "-c"]).
Proof.
  intros run.
  destruct (rule_outcome (init "build.bfg") "cc"
              (AsLines [Args [Tool "cc" ["gcc"]; Str "-c"]])
              None None false None false
              (Commands.mk [Args [Tool "cc" ["gcc"]; Str "-c"]] []))
    as (Hrun & _ & _ & _ & _ & Hok); [reflexivity | discriminate |].
  split; [exact Hrun|].
  destruct (Hok Hrun) as (_ & r & Hrules & _ & _ & _ & _ & _ & _ & Hplain).
  destruct (Hplain eq_refl) as (first & Hfirst & _ & Hcommand).
  exists r. split; [exact Hrules|]. injection Hfirst as <-. exact Hcommand.
Defined.

Lemma variables_agree_reachable_witness :
  let self := perform (CallCmdVar "cc" ["gcc"]) (init "build.bfg") in
  reachable self /\ variables_agree self.
Proof.
  assert (Hself : reachable
                    (perform (CallCmdVar "cc" ["gcc"]) (init "build.bfg")))
    by apply reachable_call, reachable_init.
  split; [exact Hself | exact (variables_agree_reachable _ Hself)].
Defined.

Lemma rules_wellformed_reachable_witness :
  let self := perform (CallRule "cc" (AsLines [Args [Str "cc"]]) None None
                         false None false) (init "build.bfg") in
  reachable self /\ rules_wellformed self.
Proof.
  assert (Hself : reachable
                    (perform (CallRule "cc" (AsLines [Args [Str "cc"]]) None
                                None false None false) (init "build.bfg")))
    by apply reachable_call, reachable_init.
  split; [exact Hself | exact (rules_wellformed_reachable _ Hself)].
Defined.

Lemma edges_wellformed_reachable_witness :
  let self := perform (CallBuild (Iterutils.One (Named "all")) "phony"
                         Iterutils.None_ Iterutils.None_ Iterutils.None_
                         None) (init "build.bfg") in
  reachable self /\ edges_wellformed self.
Proof.
  assert (Hself : reachable
                    (perform (CallBuild (Iterutils.One (Named "all")) "phony"
                                Iterutils.None_ Iterutils.None_
                                Iterutils.None_ None) (init "build.bfg")))
    by apply reachable_call, reachable_init.
  split; [exact Hself | exact (edges_wellformed_reachable _ Hself)].
Defined.

End CallsEvaluated.
